(** * vip-manager: the address manager (ip_manager.go) and the Consul
      leader checker, embedded as transition systems over explicit
      environment inputs.

    The OS commands, the coordination store, the scheduler and the
    cancellation of the context are the environment: every answer of
    the environment is an explicit input (a label of a step), every
    visible action of the program (a command run, a log line, a
    broadcast, a sleep, a return) is an event appended to a trace. *)

From Stdlib Require Import ZArith List Bool String Ascii Lia.
Import ListNotations.
Open Scope string_scope.
Open Scope list_scope.

(* ===================================================================== *)
(** * Package main: ip_manager.go                                        *)
(* ===================================================================== *)

Module Manager.

(** ** Configuration *)

(** [IPConfiguration] and its method [GetCIDR] are declared outside
    ip_manager.go; here the record carries what ip_manager.go reads from
    it: the text of [vip.String()], the interface name, and the text
    [GetCIDR()] returns. *)
Record IPConfiguration := {
  vip : string;
  iface : string;
  GetCIDR : string
}.

(** A configuration used in the examples. *)
Definition eth0 : IPConfiguration :=
  {| vip := "10.0.0.1"; iface := "eth0"; GetCIDR := "10.0.0.1/2" |}.

(** ** Errors of os/exec *)

(** What [exit.Sys()] holds: a [syscall.WaitStatus] (a 32-bit word), or a
    value of some other dynamic type, for which the type assertion of
    line 154 gives [ok = false]. *)
Inductive SysValue :=
| SysWaitStatus (status : Z)
| SysOther.

(** The dynamic type of the error of [c.Run()]: [*exec.ExitError] (the
    command ran and did not succeed) or any other error (the command
    could not be run at all). [nil] is [None]. *)
Inductive error :=
| ExitError (sys : SysValue)
| OtherError (msg : string).

(** [syscall.WaitStatus] on Linux: the low seven bits are the
    terminating signal (zero when the process exited), bits 8..15 the
    exit code. *)
Definition Exited (w : Z) : bool := (Z.land w 127 =? 0)%Z.

Definition ExitStatus (w : Z) : Z :=
  if Exited w then Z.land (Z.shiftr w 8) 255 else (-1)%Z.

(** ** Events *)

Inductive Arg :=
| AString (s : string)
| ABool (b : bool)
| AStatus (w : Z)
| AError (e : error).

(** Which of the three [m.recheck.Broadcast()] calls of SyncStates. *)
Inductive Site :=
| OnState   (* line 82 *)
| OnTick    (* line 86 *)
| OnDone.   (* line 88 *)

Inductive Event :=
| Exec (name : string) (args : list string)  (* c.Run() or c.Start() *)
| Printf (format : string) (args : list Arg) (* log.Printf *)
| Broadcast (site : Site)                    (* m.recheck.Broadcast() *)
| Return (fn : string)                       (* the function returns *)
| WgDone                                     (* wg.Done() *)
| Panic (e : string).                        (* panic(err) *)

(** A call either returns a value or panics. *)
Inductive Outcome (A : Type) :=
| Returned (a : A)
| Panicked (e : string).
Arguments Returned {A} a.
Arguments Panicked {A} e.

(** ** strings.Contains *)

Fixpoint Contains (s substr : string) : bool :=
  if prefix substr s then true
  else match s with
       | EmptyString => false
       | String _ s' => Contains s' substr
       end.

(** ** ARPQueryDuplicates (lines 95-104); [err] is what [c.Run()] returns. *)
Definition ARPQueryDuplicates (m : IPConfiguration) (err : option error)
  : bool * list Event :=
  let c := Exec "arping" ["-D"; "-c"; "2"; "-q"; "-w"; "3";
                          "-I"; iface m; vip m] in
  match err with
  | Some _ => (false, [c])
  | None => (true, [c])
  end.

(** ** QueryAddress (lines 106-134) *)

(** What the OS answers to [ip addr show <iface>]: the pipe cannot be
    created, the command cannot be started, or it runs; then [lines] are
    the tokens the [bufio.Scanner] yields, in order, and [waitErr] what
    [c.Wait()] returns (line 131 drops it). *)
Inductive QueryAnswer :=
| PipeError (e : string)
| StartError (e : string)
| Started (lines : list string) (waitErr : option error).

(** The loop of lines 124-129: [result] becomes true at a line that
    contains [lookup] and is never reset. *)
Fixpoint scan (lines : list string) (lookup : string) (result : bool) : bool :=
  match lines with
  | [] => result
  | line :: rest =>
      scan rest lookup (if Contains line lookup then true else result)
  end.

Definition QueryAddress (m : IPConfiguration) (a : QueryAnswer)
  : Outcome bool * list Event :=
  let lookup := ("inet " ++ GetCIDR m)%string in
  match a with
  | PipeError e => (Panicked e, [Panic e])
  | StartError e => (Panicked e, [Exec "ip" ["addr"; "show"; iface m]; Panic e])
  | Started lines _ =>
      (Returned (scan lines lookup false), [Exec "ip" ["addr"; "show"; iface m]])
  end.

(** ** runAddressConfiguration (lines 146-171); [err] is what [c.Run()]
    returns. *)
Definition runAddressConfiguration (m : IPConfiguration) (action : string)
  (err : option error) : bool * list Event :=
  let c := Exec "ip" ["addr"; action; GetCIDR m; "dev"; iface m] in
  match err with
  | Some (ExitError sys) =>
      match sys with
      | SysWaitStatus status =>
          if (ExitStatus status =? 2)%Z then
            (* Already exists *)
            (true, [c])
          else
            (false, [c; Printf "Got error %s" [AStatus status]])
      | SysOther => (false, [c])
      end
  | Some e =>
      (false, [c; Printf "Error running ip address %s %s on %s: %s"
                    [AString action; AString (vip m); AString (iface m);
                     AError e]])
  | None => (true, [c])
  end.

(** ** ConfigureAddress, DeconfigureAddress (lines 136-144) *)
Definition ConfigureAddress (m : IPConfiguration) (err : option error)
  : bool * list Event :=
  let (r, evs) := runAddressConfiguration m "add" err in
  (r, Printf "Configuring address %s on %s"
        [AString (GetCIDR m); AString (iface m)] :: evs).

Definition DeconfigureAddress (m : IPConfiguration) (err : option error)
  : bool * list Event :=
  let (r, evs) := runAddressConfiguration m "delete" err in
  (r, Printf "Removing address %s on %s"
        [AString (GetCIDR m); AString (iface m)] :: evs).

(** The commands of a trace, oldest first. *)
Definition is_exec (e : Event) : bool :=
  match e with Exec _ _ => true | _ => false end.

Definition execs (tr : list Event) : list Event := filter is_exec tr.

(** The event is no command, or a run of [ip]. *)
Definition runs_ip_only (e : Event) : bool :=
  match e with
  | Exec name _ => String.eqb name "ip"
  | _ => true
  end.

(** The event is the return of SyncStates. *)
Definition is_sync_return (e : Event) : bool :=
  match e with
  | Return fn => String.eqb fn "SyncStates"
  | _ => false
  end.

(** ** The two goroutines of SyncStates *)

Inductive Thread := Reconciler | Coordinator.

(** Where applyLoop (lines 36-64, and the goroutine of lines 71-74 that
    runs it) stands. *)
Inductive ApplyPC :=
| AQuery                       (* line 38: about to call QueryAddress *)
| ALock (actualState : bool)   (* line 39: about to take stateLock *)
| AHeld (actualState : bool)   (* lines 40-42: holds stateLock *)
| AAct (desiredState : bool)   (* lines 44-48: lock released, about to act *)
| AWait                        (* line 51: parked in recheck.Wait, lock released *)
| AWake                        (* line 51: notified, taking stateLock again *)
| AWoken                       (* line 53: back from Wait, holds stateLock *)
| ASelect                      (* line 56: the select on ctx.Done() *)
| AFinal                       (* line 58: about to call DeconfigureAddress *)
| AReturned                    (* line 73: applyLoop returned, about to wg.Done() *)
| AExited                      (* the goroutine is over *)
| APanicked.                   (* a panic reached the top of the goroutine *)

(** Where the loop of SyncStates (lines 76-92) stands. *)
Inductive SyncPC :=
| SSelect                      (* line 77: the select *)
| SLock (newState : bool)      (* line 79: about to take stateLock *)
| SHeld (newState : bool)      (* lines 80-84: holds stateLock *)
| SWait                        (* line 89: wg.Wait() *)
| SReturned.                   (* line 90 *)

(** [time.Duration] counts nanoseconds. *)
Definition Second : Z := 1000000000.

Record State := {
  currentState : bool;          (* m.currentState *)
  stateLock : option Thread;    (* who holds m.stateLock *)
  done : bool;                  (* ctx.Done() is closed *)
  wg : nat;                     (* the counter of the WaitGroup *)
  ticker : Z;                   (* the period of the ticker *)
  loop : ApplyPC;
  sync : SyncPC;
  applied : list bool;          (* ghost: the values taken from [states]
                                   and handled by lines 79-84, oldest first *)
  trace : list Event            (* oldest first *)
}.

Definition set_currentState (b : bool) (s : State) : State :=
  {| currentState := b; stateLock := stateLock s; done := done s; wg := wg s;
     ticker := ticker s; loop := loop s; sync := sync s;
     applied := applied s; trace := trace s |}.

Definition set_stateLock (h : option Thread) (s : State) : State :=
  {| currentState := currentState s; stateLock := h; done := done s;
     wg := wg s; ticker := ticker s; loop := loop s; sync := sync s;
     applied := applied s; trace := trace s |}.

Definition set_done (s : State) : State :=
  {| currentState := currentState s; stateLock := stateLock s; done := true;
     wg := wg s; ticker := ticker s; loop := loop s; sync := sync s;
     applied := applied s; trace := trace s |}.

Definition set_wg (n : nat) (s : State) : State :=
  {| currentState := currentState s; stateLock := stateLock s; done := done s;
     wg := n; ticker := ticker s; loop := loop s; sync := sync s;
     applied := applied s; trace := trace s |}.

Definition set_loop (p : ApplyPC) (s : State) : State :=
  {| currentState := currentState s; stateLock := stateLock s; done := done s;
     wg := wg s; ticker := ticker s; loop := p; sync := sync s;
     applied := applied s; trace := trace s |}.

Definition set_sync (p : SyncPC) (s : State) : State :=
  {| currentState := currentState s; stateLock := stateLock s; done := done s;
     wg := wg s; ticker := ticker s; loop := loop s; sync := p;
     applied := applied s; trace := trace s |}.

Definition record_applied (b : bool) (s : State) : State :=
  {| currentState := currentState s; stateLock := stateLock s; done := done s;
     wg := wg s; ticker := ticker s; loop := loop s; sync := sync s;
     applied := applied s ++ [b]; trace := trace s |}.

Definition emit (evs : list Event) (s : State) : State :=
  {| currentState := currentState s; stateLock := stateLock s; done := done s;
     wg := wg s; ticker := ticker s; loop := loop s; sync := sync s;
     applied := applied s; trace := trace s ++ evs |}.

(** [m.recheck.Broadcast()]: every goroutine parked in [Wait] is made
    runnable; applyLoop is the only one that ever waits. A goroutine
    that is not parked is not affected. *)
Definition wake (p : ApplyPC) : ApplyPC :=
  match p with
  | AWait => AWake
  | _ => p
  end.

Definition broadcast (site : Site) (s : State) : State :=
  emit [Broadcast site] (set_loop (wake (loop s)) s).

(** NewIPManager (lines 24-34) followed by lines 67-74 of SyncStates:
    the ticker is created, the WaitGroup counts one, the goroutine that
    runs applyLoop is started. *)
Definition init : State :=
  {| currentState := false; stateLock := None; done := false; wg := 1;
     ticker := (10 * Second)%Z; loop := AQuery; sync := SSelect;
     applied := []; trace := [] |}.

(** What the environment decides at a step. *)
Inductive Label :=
| LCancel                        (* the context is cancelled *)
| LRecv (newState : bool)        (* line 78: the select takes [<-states] *)
| LTick                          (* line 85: the select takes [<-ticker.C] *)
| LDone                          (* line 87: the select takes [<-ctx.Done()] *)
| LSync                          (* SyncStates moves on, outside its select *)
| LQuery (a : QueryAnswer)       (* applyLoop runs QueryAddress *)
| LRun (err : option error)      (* applyLoop runs [ip addr add/delete] *)
| LApply.                        (* applyLoop moves on, without a command *)

(** One step of SyncStates. *)
Definition sync_step (s : State) (l : Label) : option State :=
  match sync s, l with
  | SSelect, LRecv newState => Some (set_sync (SLock newState) s)
  | SSelect, LTick => Some (broadcast OnTick s)
  | SSelect, LDone =>
      if done s then Some (set_sync SWait (broadcast OnDone s)) else None
  | SLock newState, LSync =>
      match stateLock s with
      | None => Some (set_sync (SHeld newState) (set_stateLock (Some Coordinator) s))
      | Some _ => None
      end
  | SHeld newState, LSync =>
      let s1 := if negb (Bool.eqb (currentState s) newState)
                then broadcast OnState (set_currentState newState s)
                else s in
      Some (set_sync SSelect (set_stateLock None (record_applied newState s1)))
  | SWait, LSync =>
      match wg s with
      | O => Some (emit [Return "SyncStates"] (set_sync SReturned s))
      | S _ => None
      end
  | _, _ => None
  end.

(** One step of applyLoop. *)
Definition loop_step (m : IPConfiguration) (s : State) (l : Label)
  : option State :=
  match loop s, l with
  | AQuery, LQuery a =>
      match QueryAddress m a with
      | (Returned actualState, evs) => Some (set_loop (ALock actualState) (emit evs s))
      | (Panicked _, evs) => Some (set_loop APanicked (emit evs s))
      end
  | ALock actualState, LApply =>
      match stateLock s with
      | None => Some (set_loop (AHeld actualState) (set_stateLock (Some Reconciler) s))
      | Some _ => None
      end
  | AHeld actualState, LApply =>
      let desiredState := currentState s in
      let s1 := emit [Printf "IP address %s state is %t, desired %t"
                        [AString (GetCIDR m); ABool actualState;
                         ABool desiredState]] s in
      if negb (Bool.eqb actualState desiredState)
      then Some (set_loop (AAct desiredState) (set_stateLock None s1))
      else Some (set_loop AWait (set_stateLock None s1))
  | AAct desiredState, LRun err =>
      let evs := if desiredState then snd (ConfigureAddress m err)
                 else snd (DeconfigureAddress m err) in
      Some (set_loop AQuery (emit evs s))
  | AWake, LApply =>
      match stateLock s with
      | None => Some (set_loop AWoken (set_stateLock (Some Reconciler) s))
      | Some _ => None
      end
  | AWoken, LApply => Some (set_loop ASelect (set_stateLock None s))
  | ASelect, LApply =>
      if done s then Some (set_loop AFinal s) else Some (set_loop AQuery s)
  | AFinal, LRun err =>
      Some (set_loop AReturned
              (emit (snd (DeconfigureAddress m err) ++ [Return "applyLoop"]) s))
  | AReturned, LApply =>
      Some (set_loop AExited (emit [WgDone] (set_wg (pred (wg s)) s)))
  | _, _ => None
  end.

(** One step of the program. A panic ends the process: nothing moves
    after it. *)
Definition step (m : IPConfiguration) (s : State) (l : Label) : option State :=
  match loop s with
  | APanicked => None
  | _ =>
      match l with
      | LCancel => if done s then None else Some (set_done s)
      | LRecv _ | LTick | LDone | LSync => sync_step s l
      | LQuery _ | LRun _ | LApply => loop_step m s l
      end
  end.

Fixpoint run (m : IPConfiguration) (ls : list Label) (s : State)
  : option State :=
  match ls with
  | [] => Some s
  | l :: ls' =>
      match step m s l with
      | Some s' => run m ls' s'
      | None => None
      end
  end.

Definition reachable (m : IPConfiguration) (s : State) : Prop :=
  exists ls, run m ls init = Some s.

(** The schedule in which SyncStates takes the values [bs] from the
    channel one after the other and handles each (lines 78-84). *)
Definition deliver (bs : list bool) : list Label :=
  flat_map (fun b => [LRecv b; LSync; LSync]) bs.

(** ** Invariants *)

(** The lock is held by the goroutine that stands between its Lock and
    its Unlock (or its Wait), and by nobody otherwise. *)
Definition holds_lock (s : State) : option Thread :=
  match sync s, loop s with
  | SHeld _, _ => Some Coordinator
  | _, AHeld _ => Some Reconciler
  | _, AWoken => Some Reconciler
  | _, _ => None
  end.

Definition coherent (s : State) : Prop :=
  stateLock s = holds_lock s /\
  (match sync s with
   | SHeld _ => match loop s with AHeld _ | AWoken => False | _ => True end
   | _ => True
   end) /\
  ticker s = (10 * Second)%Z /\
  currentState s = last (applied s) false.

(** Where applyLoop can stand once it has seen the cancellation at its
    select, with the commands run since: none before the final
    DeconfigureAddress, its one command after. *)
Definition leaving (m : IPConfiguration) (s0 s : State) : Prop :=
  done s = true /\
  exists t,
    trace s = trace s0 ++ t /\
    match loop s with
    | ASelect | AFinal => execs t = []
    | AReturned | AExited =>
        execs t = [Exec "ip" ["addr"; "delete"; GetCIDR m; "dev"; iface m]]
    | _ => False
    end.

(** The trace shows the final DeconfigureAddress and the return of
    applyLoop right after it; and, for [released_done], the [wg.Done()]
    of the goroutine later on. *)
Definition released (m : IPConfiguration) (tr : list Event) : Prop :=
  exists t1 t2 err,
    tr = t1 ++ snd (DeconfigureAddress m err) ++ Return "applyLoop" :: t2.

Definition released_done (m : IPConfiguration) (tr : list Event) : Prop :=
  exists t1 t2 err,
    tr = t1 ++ snd (DeconfigureAddress m err) ++ Return "applyLoop" :: t2 /\
    In WgDone t2.

(** What holds of the WaitGroup, of the two goroutines and of the trace
    on the way to the return of SyncStates. *)
Definition shutdown_inv (m : IPConfiguration) (s : State) : Prop :=
  match loop s with
  | AReturned => wg s = 1 /\ released m (trace s)
  | AExited => wg s = 0 /\ released_done m (trace s)
  | _ => wg s = 1
  end /\
  match sync s with
  | SWait =>
      done s = true /\ In (Broadcast OnDone) (trace s) /\
      existsb is_sync_return (trace s) = false
  | SReturned =>
      done s = true /\ loop s = AExited /\
      exists pre,
        trace s = pre ++ [Return "SyncStates"] /\
        released_done m pre /\ In (Broadcast OnDone) pre /\
        existsb is_sync_return pre = false
  | _ => existsb is_sync_return (trace s) = false
  end.

(** ** States used in the examples *)

Definition after (m : IPConfiguration) (ls : list Label) : State :=
  match run m ls init with
  | Some s => s
  | None => init
  end.

(** The values true, false, true were handled, then applyLoop found the
    address absent and took the lock. *)
Definition schedule_held : list Label :=
  deliver [true; false; true] ++ [LQuery (Started [] None); LApply].

Definition state_held : State := Eval vm_compute in after eth0 schedule_held.

(** The value true was taken from the channel and the lock acquired;
    the cell still holds false. *)
Definition schedule_pending : list Label := [LRecv true; LSync].

Definition state_pending : State :=
  Eval vm_compute in after eth0 schedule_pending.

(** The value true was handled, applyLoop found the address absent and
    ran [ip addr add], which ended with exit status 2. *)
Definition schedule_added : list Label :=
  [LRecv true; LSync; LSync; LQuery (Started [] None); LApply; LApply;
   LRun (Some (ExitError (SysWaitStatus 512)))].

Definition state_added : State := Eval vm_compute in after eth0 schedule_added.

(** The context is cancelled while applyLoop is busy with its query;
    SyncStates broadcasts and waits for the goroutine; applyLoop then
    finds nothing to do and parks in Wait. *)
Definition schedule_parked : list Label :=
  [LCancel; LDone; LQuery (Started [] None); LApply; LApply].

Definition state_parked : State :=
  Eval vm_compute in after eth0 schedule_parked.

(** Cancellation after applyLoop has parked: the broadcast wakes it up,
    it deconfigures and leaves, SyncStates returns. *)
Definition schedule_returned : list Label :=
  [LQuery (Started [] None); LApply; LApply; LCancel; LDone;
   LApply; LApply; LApply; LRun None; LApply; LSync].

Definition state_returned : State :=
  Eval vm_compute in after eth0 schedule_returned.

(** The command cannot be started: QueryAddress panics. *)
Definition schedule_panicked : list Label :=
  [LQuery (StartError "fork/exec /sbin/ip: resource temporarily unavailable")].

Definition state_panicked : State :=
  Eval vm_compute in after eth0 schedule_panicked.

(** The address is absent and not desired; applyLoop has parked, a tick
    has woken it up and the context was cancelled meanwhile: applyLoop
    stands at its select. *)
Definition schedule_select : list Label :=
  [LQuery (Started [] None); LApply; LApply; LTick; LCancel; LApply; LApply].

Definition state_select : State :=
  Eval vm_compute in after eth0 schedule_select.

(** ** The reading of "carries the configured address" by exact match

    This definition follows the words of the specification, not the
    code: the entries of the address list are the second fields of the
    lines whose first field is [inet], and the interface carries the
    address when one entry equals the configured text. It is compared
    with [QueryAddress] below. *)

Definition is_space (c : ascii) : bool :=
  (Ascii.eqb c " " || Ascii.eqb c "009")%bool.

Fixpoint fields_from (s : string) (cur : string) : list string :=
  match s with
  | EmptyString => match cur with EmptyString => [] | _ => [cur] end
  | String c s' =>
      if is_space c then
        match cur with
        | EmptyString => fields_from s' EmptyString
        | _ => cur :: fields_from s' EmptyString
        end
      else fields_from s' (cur ++ String c EmptyString)%string
  end.

Definition fields (s : string) : list string := fields_from s EmptyString.

Definition spec_entries (lines : list string) : list string :=
  flat_map (fun line =>
              match fields line with
              | kind :: addr :: _ => if String.eqb kind "inet" then [addr] else []
              | _ => []
              end) lines.

Definition spec_carries (lines : list string) (cidr : string) : bool :=
  existsb (String.eqb cidr) (spec_entries lines).

(** The values true, true, false, false were handled. *)
Definition schedule_repeated : list Label := deliver [true; true; false; false].

Definition state_repeated : State :=
  Eval vm_compute in after eth0 schedule_repeated.

(** True was handled and the context cancelled; applyLoop has not
    moved yet. *)
Definition schedule_wanted : list Label := deliver [true] ++ [LCancel].

Definition state_wanted : State :=
  Eval vm_compute in after eth0 schedule_wanted.

(** applyLoop found nothing to do and parked; then a tick. *)
Definition schedule_waiting : list Label :=
  [LQuery (Started [] None); LApply; LApply].

Definition state_waiting : State :=
  Eval vm_compute in after eth0 schedule_waiting.

Definition state_ticked : State :=
  Eval vm_compute in after eth0 (schedule_waiting ++ [LTick]).

(** ** Measures on traces and schedules of single passes *)

(** The event comes from a helper that talks to the OS. *)
Definition is_os_event (e : Event) : bool :=
  match e with
  | Exec _ _ | Printf _ _ | Panic _ => true
  | _ => false
  end.

Definition is_state_broadcast (e : Event) : bool :=
  match e with
  | Broadcast OnState => true
  | _ => false
  end.

Definition is_broadcast (e : Event) : bool :=
  match e with
  | Broadcast _ => true
  | _ => false
  end.

Definition is_return (e : Event) : bool :=
  match e with
  | Return _ => true
  | _ => false
  end.

(** How often the value changes along [bs], starting from [prev]. *)
Fixpoint changes (prev : bool) (bs : list bool) : nat :=
  match bs with
  | [] => 0
  | b :: rest =>
      (if Bool.eqb prev b then 0 else 1) + changes b rest
  end.

(** One pass of applyLoop that finds the state wrong and acts: the
    query, the lock, the comparison, the command. *)
Definition acting_pass (lines : list string) (waitErr err : option error)
  : list Label :=
  [LQuery (Started lines waitErr); LApply; LApply; LRun err].

Fixpoint acting_passes (n : nat) (lines : list string)
  (waitErr err : option error) : list Label :=
  match n with
  | O => []
  | S n' => acting_pass lines waitErr err ++ acting_passes n' lines waitErr err
  end.

(** True was handled; the address stays absent and [ip addr add] fails
    with exit status 1, three passes in a row. *)
Definition schedule_retried : list Label :=
  deliver [true]
  ++ acting_passes 3 [] None (Some (ExitError (SysWaitStatus 256))).

Definition state_retried : State :=
  Eval vm_compute in after eth0 schedule_retried.

(** A parked applyLoop is woken by a tick and queries again. *)
Definition tick_pass (a : QueryAnswer) : list Label :=
  [LTick; LApply; LApply; LApply; LQuery a].

(** Whether a command is [ip addr show ...]. *)
Definition is_show (e : Event) : bool :=
  match e with
  | Exec _ (_ :: verb :: _) => String.eqb verb "show"
  | _ => false
  end.

(** Reading a trace from its oldest event: [Some true] when the last
    command was a query, [Some false] when it was an add or a delete
    (or when there was none), [None] as soon as an add or a delete did
    not come right after a query. *)
Definition after_command (st : option bool) (e : Event) : option bool :=
  match st, e with
  | None, _ => None
  | Some fresh, Exec _ _ =>
      if is_show e then Some true
      else if fresh then Some false else None
  | Some fresh, _ => Some fresh
  end.

Definition queried_before_acting (tr : list Event) : option bool :=
  fold_left after_command tr (Some false).

(** Where applyLoop stands against the reading of the trace: a query is
    the last command from the lock on to the command, an add or a
    delete is the last one after the final DeconfigureAddress. *)
Definition fresh_inv (s : State) : Prop :=
  match loop s with
  | AQuery | APanicked => queried_before_acting (trace s) <> None
  | AReturned | AExited => queried_before_acting (trace s) = Some false
  | _ => queried_before_acting (trace s) = Some true
  end.

(** Before the cancellation nothing has returned and neither goroutine
    is on its way out. *)
Definition leaving_needs_cancel (s : State) : Prop :=
  done s = true \/
  (existsb is_return (trace s) = false /\
   match loop s with
   | AFinal | AReturned | AExited => False
   | _ => True
   end /\
   match sync s with
   | SWait | SReturned => False
   | _ => True
   end).

(** The broadcasts of line 82 are as many as the changes of the value. *)
Definition counts_changes (s : State) : Prop :=
  List.length (filter is_state_broadcast (trace s)) =
  changes false (applied s) /\
  currentState s = last (applied s) false.

End Manager.

(* ===================================================================== *)
(** * Package checker: the Consul leader checker                         *)
(* ===================================================================== *)

Module Checker.

(** The fields of [ConsulLeaderChecker] that GetChangeNotificationStream
    reads; [apiClient] is the environment. *)
Record ConsulLeaderChecker := {
  key : string;
  nodename : string
}.

(** What [kv.Get] returns: an error, neither a pair nor an error (the
    key does not exist), or the pair with its value and [ModifyIndex]. *)
Inductive GetAnswer :=
| GetError (err : string)
| GetNil
| GetPair (Value : string) (ModifyIndex : Z).

(** The non-nil values of [ctx.Err()]. *)
Inductive CtxError := Canceled | DeadlineExceeded.

Inductive Event :=
| Get (k : string) (RequireConsistent : bool) (WaitIndex : Z) (* kv.Get *)
| Printf (format : string) (args : list string)             (* log.Printf *)
| Sleep (d : Z)                                             (* time.Sleep *)
| Send (state : bool)                                       (* out <- state *)
| Return (err : option CtxError).                           (* return ctx.Err() *)

Inductive PC :=
| PGet                             (* line 55 *)
| PSelect (state : bool)           (* line 73 *)
| PReturned (err : option CtxError). (* line 81 *)

Definition Second : Z := 1000000000.

Record State := {
  WaitIndex : Z;                   (* queryOptions.WaitIndex *)
  ctxErr : option CtxError;        (* ctx.Err() *)
  pc : PC;
  trace : list Event               (* oldest first *)
}.

(** [queryOptions] has [WaitIndex] zero at line 49. *)
Definition init : State :=
  {| WaitIndex := 0; ctxErr := None; pc := PGet; trace := [] |}.

Inductive Label :=
| LCancel (e : CtxError)   (* the context ends with error [e] *)
| LGet (a : GetAnswer)     (* line 55: [kv.Get] returns [a] *)
| LSend                    (* line 76: the select takes [out <- state] *)
| LDone.                   (* line 74: the select takes [<-ctx.Done()] *)

Definition step (c : ConsulLeaderChecker) (s : State) (l : Label)
  : option State :=
  match l, pc s with
  | LCancel e, _ =>
      match ctxErr s with
      | None => Some {| WaitIndex := WaitIndex s; ctxErr := Some e;
                        pc := pc s; trace := trace s |}
      | Some _ => None
      end
  | LGet a, PGet =>
      let q := Get (key c) true (WaitIndex s) in
      match a with
      | GetError err =>
          match ctxErr s with
          | Some e =>
              Some {| WaitIndex := WaitIndex s; ctxErr := ctxErr s;
                      pc := PReturned (ctxErr s);
                      trace := trace s ++ [q; Return (ctxErr s)] |}
          | None =>
              Some {| WaitIndex := WaitIndex s; ctxErr := ctxErr s; pc := PGet;
                      trace := trace s ++ [q; Printf "consul error: %s" [err];
                                           Sleep (1 * Second)] |}
          end
      | GetNil =>
          Some {| WaitIndex := WaitIndex s; ctxErr := ctxErr s; pc := PGet;
                  trace := trace s ++
                    [q; Printf "Cannot get variable for key %s. Will try again in a second." [key c];
                     Sleep (1 * Second)] |}
      | GetPair value modifyIndex =>
          Some {| WaitIndex := modifyIndex; ctxErr := ctxErr s;
                  pc := PSelect (String.eqb value (nodename c));
                  trace := trace s ++ [q] |}
      end
  | LSend, PSelect state =>
      Some {| WaitIndex := WaitIndex s; ctxErr := ctxErr s; pc := PGet;
              trace := trace s ++ [Send state] |}
  | LDone, PSelect _ =>
      match ctxErr s with
      | Some _ =>
          Some {| WaitIndex := WaitIndex s; ctxErr := ctxErr s;
                  pc := PReturned (ctxErr s);
                  trace := trace s ++ [Return (ctxErr s)] |}
      | None => None
      end
  | _, _ => None
  end.

Fixpoint run (c : ConsulLeaderChecker) (ls : list Label) (s : State)
  : option State :=
  match ls with
  | [] => Some s
  | l :: ls' =>
      match step c s l with
      | Some s' => run c ls' s'
      | None => None
      end
  end.

(** The booleans sent on [out], oldest first. *)
Fixpoint sent (tr : list Event) : list bool :=
  match tr with
  | [] => []
  | Send b :: tr' => b :: sent tr'
  | _ :: tr' => sent tr'
  end.

(** The sleeps, oldest first. *)
Fixpoint sleeps (tr : list Event) : list Z :=
  match tr with
  | [] => []
  | Sleep d :: tr' => d :: sleeps tr'
  | _ :: tr' => sleeps tr'
  end.

(** The [WaitIndex] of each [kv.Get], oldest first. *)
Fixpoint queried (tr : list Event) : list Z :=
  match tr with
  | [] => []
  | Get _ _ i :: tr' => i :: queried tr'
  | _ :: tr' => queried tr'
  end.

(** Each successful read is delivered: the schedule in which [kv.Get]
    returns the given pairs in turn and every send is taken. *)
Definition deliver (reads : list (string * Z)) : list Label :=
  flat_map (fun r => [LGet (GetPair (fst r) (snd r)); LSend]) reads.

(** A read that brings no pair and is tried again: no record, or an
    error of the store while [ctx.Err()] is nil. *)
Definition retried (ctx : option CtxError) (a : GetAnswer) : bool :=
  match a, ctx with
  | GetNil, _ => true
  | GetError _, None => true
  | _, _ => false
  end.

(** The number of lines printed. *)
Fixpoint printed (tr : list Event) : nat :=
  match tr with
  | [] => 0
  | Printf _ _ :: tr' => S (printed tr')
  | _ :: tr' => printed tr'
  end.

(** What holds once the function has returned. *)
Definition returned_inv (s : State) : Prop :=
  match pc s with
  | PReturned r =>
      r = ctxErr s /\ r <> None /\ exists pre, trace s = pre ++ [Return r]
  | _ => True
  end.

(** The checker of the examples and two of its runs. *)
Definition node1 : ConsulLeaderChecker :=
  {| key := "service/leader"; nodename := "node1" |}.

Definition after (c : ConsulLeaderChecker) (ls : list Label) : State :=
  match run c ls init with
  | Some s => s
  | None => init
  end.

(** The store fails twice, then the context is cancelled and the store
    fails again. *)
Definition schedule_cancelled : list Label :=
  [LGet (GetError "connection refused"); LGet GetNil; LCancel Canceled;
   LGet (GetError "connection refused")].

Definition state_cancelled : State :=
  Eval vm_compute in after node1 schedule_cancelled.

(** ** The stream as the specification words it

    This definition follows the words of the specification, not the
    code: a boolean is emitted only for a read that shows a real change
    of the marker, that is whose [ModifyIndex] differs from the one of
    the read before. It is compared with the code below. *)
Fixpoint spec_changes (last : option Z) (reads : list (string * Z))
  : list (string * Z) :=
  match reads with
  | [] => []
  | r :: rest =>
      match last with
      | Some i => if (snd r =? i)%Z then spec_changes last rest
                  else r :: spec_changes (Some (snd r)) rest
      | None => r :: spec_changes (Some (snd r)) rest
      end
  end.

Definition spec_emitted (c : ConsulLeaderChecker) (reads : list (string * Z))
  : list bool :=
  map (fun r => String.eqb (fst r) (nodename c)) (spec_changes None reads).

(** ** Measures on schedules *)

(** The index of the last pair among the answers of a schedule, [i]
    when there is none. *)
Fixpoint last_index (ls : list Label) (i : Z) : Z :=
  match ls with
  | [] => i
  | LGet (GetPair _ j) :: rest => last_index rest j
  | _ :: rest => last_index rest i
  end.

(** The values of the pairs among the answers of a schedule, in order. *)
Definition pairs (ls : list Label) : list string :=
  flat_map (fun l => match l with
                     | LGet (GetPair v _) => [v]
                     | _ => []
                     end) ls.

(** What waits at the select. *)
Definition pending (p : PC) : list bool :=
  match p with
  | PSelect b => [b]
  | _ => []
  end.

(** A run that starts at a read and has not returned. *)
Definition schedule_reads : list Label :=
  [LGet (GetPair "node1" 12); LSend; LGet (GetError "i/o timeout");
   LGet (GetPair "node2" 3)].

Definition state_reads : State := Eval vm_compute in after node1 schedule_reads.


End Checker.

(* ===================================================================== *)
(** * A fact on lists                                                     *)
(* ===================================================================== *)

Lemma last_cons_default {A : Type} (b d : A) (bs : list A) :
  last (b :: bs) d = last bs b.
Proof.
  revert b d; induction bs as [|c bs IH]; intros b d; [reflexivity|].
  change (last (b :: c :: bs) d) with (last (c :: bs) d).
  now rewrite (IH c d), (IH c b).
Qed.

(* ===================================================================== *)
(** * Properties of the address manager                                  *)
(* ===================================================================== *)

Module ManagerProofs.
Import Manager.

(** ** Strings *)

Lemma prefix_iff (p s : string) :
  prefix p s = true <-> exists post, s = (p ++ post)%string.
Proof.
  revert s; induction p as [|c p IH]; intros s; simpl.
  - split; [intros _; exists s; reflexivity | intros _; destruct s; reflexivity].
  - destruct s as [|d s].
    + split; [discriminate | intros [post H]; discriminate].
    + simpl. destruct (ascii_dec c d) as [->|Hne].
      * rewrite IH. split; intros [post H]; exists post.
        -- now rewrite H.
        -- now inversion H.
      * split; [discriminate | intros [post H]; inversion H; congruence].
Qed.

Lemma Contains_eq (s sub : string) :
  Contains s sub =
  if prefix sub s then true
  else match s with
       | EmptyString => false
       | String _ s' => Contains s' sub
       end.
Proof. destruct s; reflexivity. Qed.

Lemma Contains_iff (s sub : string) :
  Contains s sub = true <->
  exists pre post, s = (pre ++ sub ++ post)%string.
Proof.
  induction s as [|c s IH]; rewrite Contains_eq;
    match goal with |- context [prefix ?a ?b] => destruct (prefix a b) eqn:Hp end.
  - split; [intros _ | reflexivity].
    apply prefix_iff in Hp. destruct Hp as [post Hp].
    exists "", post. exact Hp.
  - split; [discriminate|]. intros [pre [post H]].
    destruct pre; [|discriminate].
    assert (prefix sub "" = true) by (apply prefix_iff; exists post; exact H).
    congruence.
  - split; [intros _ | reflexivity].
    apply prefix_iff in Hp. destruct Hp as [post Hp].
    exists "", post. exact Hp.
  - rewrite IH. split.
    + intros [pre [post H]]. exists (String c pre), post. simpl. now rewrite H.
    + intros [pre [post H]]. destruct pre as [|d pre].
      * assert (prefix sub (String c s) = true)
          by (apply prefix_iff; exists post; exact H).
        congruence.
      * simpl in H. inversion H. exists pre, post. reflexivity.
Qed.

Lemma scan_existsb (lines : list string) (lookup : string) (r : bool) :
  scan lines lookup r =
  (r || existsb (fun line => Contains line lookup) lines)%bool.
Proof.
  revert r; induction lines as [|line rest IH]; intros r; simpl.
  - now rewrite orb_false_r.
  - rewrite IH. destruct (Contains line lookup), r; reflexivity.
Qed.

(** ** Wait statuses *)

Example exit_code_2 : ExitStatus 512 = 2%Z.
Proof. reflexivity. Qed.

Example exit_code_1 : ExitStatus 256 = 1%Z.
Proof. reflexivity. Qed.

Example killed_by_signal_9 : ExitStatus 9 = (-1)%Z.
Proof. reflexivity. Qed.

Lemma ExitStatus_2_iff (w : Z) :
  ExitStatus w = 2%Z <->
  Z.land w 127 = 0%Z /\ Z.land (Z.shiftr w 8) 255 = 2%Z.
Proof.
  unfold ExitStatus, Exited.
  destruct (Z.eqb_spec (Z.land w 127) 0); split; intros H.
  - now split.
  - now destruct H.
  - discriminate.
  - destruct H; contradiction.
Qed.

(** The branch of line 154 where [exit.Sys()] is no [WaitStatus]: the
    call reports failure and prints nothing of its own. *)
Remark exit_error_without_status (m : IPConfiguration) (action : string) :
  runAddressConfiguration m action (Some (ExitError SysOther)) =
  (false, [Exec "ip" ["addr"; action; GetCIDR m; "dev"; iface m]]).
Proof. reflexivity. Qed.

(** ** QueryAddress *)

(** C7, as amended: QueryAddress answers true exactly when some line of
    the output of [ip addr show] contains the text [inet <CIDR>]
    somewhere (a substring match); a command that starts never makes it
    panic, whatever it prints and however it ends. *)
Theorem QueryAddress_substring_match
  (m : IPConfiguration) (lines : list string) (waitErr : option error) :
  (exists r, fst (QueryAddress m (Started lines waitErr)) = Returned r) /\
  (fst (QueryAddress m (Started lines waitErr)) = Returned true <->
   exists line pre post,
     In line lines /\
     line = (pre ++ ("inet " ++ GetCIDR m) ++ post)%string).
Proof.
  split; [eexists; reflexivity|].
  cbn [QueryAddress fst]. rewrite scan_existsb. cbn [orb].
  split.
  - intros H. injection H as H. apply existsb_exists in H.
    destruct H as [line [Hin Hc]]. apply Contains_iff in Hc.
    destruct Hc as [pre [post Hc]]. now exists line, pre, post.
  - intros [line [pre [post [Hin Hl]]]]. f_equal.
    apply existsb_exists. exists line. split; [exact Hin|].
    apply Contains_iff. now exists pre, post.
Qed.

(** C7, as stated, fails: with the address 10.0.0.1/2 configured, an
    interface that carries 10.0.0.1/24 and not 10.0.0.1/2 makes
    QueryAddress answer true. *)
Lemma QueryAddress_longer_address_matches :
  let lines := ["2: eth0: <BROADCAST,MULTICAST,UP,LOWER_UP> mtu 1500";
                "    inet 10.0.0.1/24 brd 10.0.0.255 scope global eth0"] in
  spec_entries lines = ["10.0.0.1/24"] /\
  spec_carries lines (GetCIDR eth0) = false /\
  fst (QueryAddress eth0 (Started lines None)) = Returned true.
Proof. repeat split. Qed.

(** ** ConfigureAddress and DeconfigureAddress *)

Ltac mutation_cases err :=
  unfold ConfigureAddress, DeconfigureAddress, runAddressConfiguration;
  destruct err as [[[?st|]|]|]; try reflexivity;
  match goal with
  | |- context [(ExitStatus ?st =? 2)%Z] =>
      destruct (ExitStatus st =? 2)%Z; reflexivity
  end.

Lemma execs_ConfigureAddress (m : IPConfiguration) (err : option error) :
  execs (snd (ConfigureAddress m err)) =
  [Exec "ip" ["addr"; "add"; GetCIDR m; "dev"; iface m]].
Proof. mutation_cases err. Qed.

Lemma execs_DeconfigureAddress (m : IPConfiguration) (err : option error) :
  execs (snd (DeconfigureAddress m err)) =
  [Exec "ip" ["addr"; "delete"; GetCIDR m; "dev"; iface m]].
Proof. mutation_cases err. Qed.

Lemma ip_only_ConfigureAddress (m : IPConfiguration) (err : option error) :
  forallb runs_ip_only (snd (ConfigureAddress m err)) = true.
Proof. mutation_cases err. Qed.

Lemma ip_only_DeconfigureAddress (m : IPConfiguration) (err : option error) :
  forallb runs_ip_only (snd (DeconfigureAddress m err)) = true.
Proof. mutation_cases err. Qed.

Lemma no_return_ConfigureAddress (m : IPConfiguration) (err : option error) :
  existsb is_sync_return (snd (ConfigureAddress m err)) = false.
Proof. mutation_cases err. Qed.

Lemma no_return_DeconfigureAddress (m : IPConfiguration) (err : option error) :
  existsb is_sync_return (snd (DeconfigureAddress m err)) = false.
Proof. mutation_cases err. Qed.

Lemma QueryAddress_events (m : IPConfiguration) (a : QueryAnswer)
  (r : Outcome bool) (evs : list Event) :
  QueryAddress m a = (r, evs) ->
  forallb runs_ip_only evs = true /\
  existsb is_sync_return evs = false /\
  (forall e, r = Panicked e ->
     exists e', a = PipeError e' \/ a = StartError e') /\
  (forall b, r = Returned b -> exists lines w, a = Started lines w).
Proof.
  destruct a; cbn; intros H; injection H as <- <-; repeat split;
    try discriminate; eauto.
Qed.

(** C3: when the command ends with exit status 2 both operations report
    success; with any other wait status, and when the command could not
    be run, they report failure and print a line after the command; the
    command is run once in every case. *)
Theorem exit_status_2_is_success
  (m : IPConfiguration) (w : Z) (msg : string) (err : option error) :
  let add := Exec "ip" ["addr"; "add"; GetCIDR m; "dev"; iface m] in
  let del := Exec "ip" ["addr"; "delete"; GetCIDR m; "dev"; iface m] in
  let exited := Some (ExitError (SysWaitStatus w)) in
  let failed := Some (OtherError msg) in
  let configuring := Printf "Configuring address %s on %s"
                       [AString (GetCIDR m); AString (iface m)] in
  let removing := Printf "Removing address %s on %s"
                    [AString (GetCIDR m); AString (iface m)] in
  (* the verdict *)
  fst (ConfigureAddress m exited) = (ExitStatus w =? 2)%Z /\
  fst (DeconfigureAddress m exited) = (ExitStatus w =? 2)%Z /\
  fst (ConfigureAddress m failed) = false /\
  fst (DeconfigureAddress m failed) = false /\
  (* what is printed *)
  snd (ConfigureAddress m exited) =
    configuring :: add ::
      (if (ExitStatus w =? 2)%Z then []
       else [Printf "Got error %s" [AStatus w]]) /\
  snd (DeconfigureAddress m exited) =
    removing :: del ::
      (if (ExitStatus w =? 2)%Z then []
       else [Printf "Got error %s" [AStatus w]]) /\
  snd (ConfigureAddress m failed) =
    [configuring; add;
     Printf "Error running ip address %s %s on %s: %s"
       [AString "add"; AString (vip m); AString (iface m);
        AError (OtherError msg)]] /\
  snd (DeconfigureAddress m failed) =
    [removing; del;
     Printf "Error running ip address %s %s on %s: %s"
       [AString "delete"; AString (vip m); AString (iface m);
        AError (OtherError msg)]] /\
  (* one attempt *)
  execs (snd (ConfigureAddress m err)) = [add] /\
  execs (snd (DeconfigureAddress m err)) = [del].
Proof.
  cbv zeta.
  split; [|split; [|split; [|split; [|split; [|split; [|split; [|split;
    [|split]]]]]]]];
    try apply execs_ConfigureAddress; try apply execs_DeconfigureAddress;
    unfold ConfigureAddress, DeconfigureAddress, runAddressConfiguration;
    try (destruct (ExitStatus w =? 2)%Z; reflexivity); reflexivity.
Qed.


(** ** Runs of the two goroutines *)

Lemma run_app (m : IPConfiguration) (l1 l2 : list Label) (s : State) :
  run m (l1 ++ l2) s =
  match run m l1 s with
  | Some s' => run m l2 s'
  | None => None
  end.
Proof.
  revert s; induction l1 as [|l l1 IH]; intros s; simpl; [reflexivity|].
  destruct (step m s l); [apply IH | reflexivity].
Qed.

Lemma run_invariant (m : IPConfiguration) (P : State -> Prop) :
  (forall s l s', P s -> step m s l = Some s' -> P s') ->
  forall ls s s', P s -> run m ls s = Some s' -> P s'.
Proof.
  intros Hstep ls; induction ls as [|l ls IH]; intros s s' HP Hrun; simpl in Hrun.
  - now injection Hrun as <-.
  - destruct (step m s l) as [s1|] eqn:Hs; [|discriminate].
    eapply IH; [|exact Hrun]. eapply Hstep; eassumption.
Qed.

Lemma reachable_invariant (m : IPConfiguration) (P : State -> Prop) :
  P init ->
  (forall s l s', P s -> step m s l = Some s' -> P s') ->
  forall s, reachable m s -> P s.
Proof.
  intros Hinit Hstep s [ls Hrun].
  eapply run_invariant; eassumption.
Qed.

(** Every way a step can succeed, one goal each. *)
Ltac rewrite_pcs :=
  repeat match goal with
         | E : loop ?s = _ |- context [loop ?s] => rewrite E
         | E : sync ?s = _ |- context [sync ?s] => rewrite E
         | E : done ?s = _ |- context [done ?s] => rewrite E
         | E : stateLock ?s = _ |- context [stateLock ?s] => rewrite E
         | E : wg ?s = _ |- context [wg ?s] => rewrite E
         end.

Ltac step_cases H :=
  unfold step in H;
  match type of H with
  | context [loop ?s] =>
      let E := fresh "Hloop" in
      destruct (loop s) eqn:E; try discriminate H;
      match type of H with
      | context [match ?l with LCancel => _ | _ => _ end] => destruct l
      end;
      unfold sync_step, loop_step in H; try rewrite E in H
  end;
  try match type of H with
      | context [sync ?s] =>
          let E := fresh "Hsync" in destruct (sync s) eqn:E
      end;
  try discriminate H;
  repeat match type of H with
         | context [if done ?s then _ else _] =>
             let E := fresh "Hdone" in destruct (done s) eqn:E
         | context [match stateLock ?s with _ => _ end] =>
             let E := fresh "Hlock" in destruct (stateLock s) eqn:E
         | context [match wg ?s with _ => _ end] =>
             let E := fresh "Hwg" in destruct (wg s) eqn:E
         | context [match QueryAddress ?m ?a with _ => _ end] =>
             let E := fresh "Hquery" in
             destruct (QueryAddress m a) as [[?actual|?e] ?evs] eqn:E
         | context [Bool.eqb ?x ?y] =>
             let E := fresh "Hcmp" in destruct (Bool.eqb x y) eqn:E
         end;
  try discriminate H;
  cbn [negb] in H;
  injection H as H; subst.

Lemma coherent_step (m : IPConfiguration) (s s' : State) (l : Label) :
  coherent s -> step m s l = Some s' -> coherent s'.
Proof.
  intros Hc H; revert Hc. unfold coherent, holds_lock.
  step_cases H; cbn; rewrite_pcs; cbn;
    try match goal with |- context [sync ?s] => destruct (sync s) end; cbn;
    intros [Hl [Hx [Ht Hc]]]; rewrite ?last_last;
    try match goal with E : Bool.eqb _ _ = true |- _ => apply eqb_prop in E end;
    try contradiction; try discriminate;
    repeat split; first [assumption | reflexivity | congruence | idtac].
Qed.

Lemma reachable_coherent (m : IPConfiguration) (s : State) :
  reachable m s -> coherent s.
Proof.
  apply reachable_invariant.
  - repeat split.
  - intros; eapply coherent_step; eassumption.
Qed.

Lemma step_alive (m : IPConfiguration) (s : State) (l : Label) :
  loop s <> APanicked ->
  step m s l =
  match l with
  | LCancel => if done s then None else Some (set_done s)
  | LRecv _ | LTick | LDone | LSync => sync_step s l
  | LQuery _ | LRun _ | LApply => loop_step m s l
  end.
Proof. unfold step. destruct (loop s); congruence. Qed.




(** ** SyncStates and the value applyLoop reads *)





(** ** Panics *)

(** C8, as stated, fails: when [ip addr show] cannot be started,
    QueryAddress panics inside applyLoop and the process is over; and a
    failed [ip addr add] is not left for the next wake: it is run again
    at once, three times here after the one broadcast. *)
Lemma QueryAddress_start_failure_panics :
  (run eth0 schedule_panicked init = Some state_panicked /\
   loop state_panicked = APanicked /\
   trace state_panicked =
     [Exec "ip" ["addr"; "show"; "eth0"];
      Panic "fork/exec /sbin/ip: resource temporarily unavailable"] /\
   forall l, step eth0 state_panicked l = None) /\
  (run eth0 schedule_retried init = Some state_retried /\
   execs (trace state_retried) =
     [Exec "ip" ["addr"; "show"; "eth0"];
      Exec "ip" ["addr"; "add"; "10.0.0.1/2"; "dev"; "eth0"];
      Exec "ip" ["addr"; "show"; "eth0"];
      Exec "ip" ["addr"; "add"; "10.0.0.1/2"; "dev"; "eth0"];
      Exec "ip" ["addr"; "show"; "eth0"];
      Exec "ip" ["addr"; "add"; "10.0.0.1/2"; "dev"; "eth0"]] /\
   filter is_broadcast (trace state_retried) = [Broadcast OnState]).
Proof.
  split.
  - repeat split.
  - split; [vm_compute; reflexivity|]. split; reflexivity.
Qed.

Lemma panic_step_iff (m : IPConfiguration) (s s' : State) (l : Label) :
  step m s l = Some s' ->
  (loop s' = APanicked <->
   exists e, l = LQuery (PipeError e) \/ l = LQuery (StartError e)).
Proof.
  intros Hstep.
  step_cases Hstep; cbn; rewrite_pcs;
    try (split; [discriminate | intros [? [?|?]]; discriminate]);
    try (split; [intros E; destruct (loop s); discriminate
                | intros [? [?|?]]; discriminate]).
  - apply QueryAddress_events in Hquery.
    destruct Hquery as [_ [_ [_ Hr]]].
    destruct (Hr _ eq_refl) as [lines [w ->]].
    split; [discriminate | intros [? [?|?]]; discriminate].
  - apply QueryAddress_events in Hquery.
    destruct Hquery as [_ [_ [Hp _]]].
    destruct (Hp _ eq_refl) as [e' [-> | ->]]; split; eauto.
Qed.

(** C8, as amended: a step of the program ends in a panic exactly when
    it is a call of QueryAddress whose command could not get its pipe or
    could not be started. A query whose command started returns,
    whatever it printed and however it ended, and applyLoop goes on to
    the lock; [ip addr add] and [ip addr delete] return whatever the
    command's result, and applyLoop goes on: after the add or delete of
    a pass straight to its next query, with no wait for a wake, after
    the final delete to its return. *)
Theorem panic_only_when_query_cannot_start
  (m : IPConfiguration) (s s' : State) (l : Label)
  (lines : list string) (waitErr err : option error)
  (Hstep : step m s l = Some s') :
  (loop s' = APanicked <->
   exists e, l = LQuery (PipeError e) \/ l = LQuery (StartError e)) /\
  (l = LQuery (Started lines waitErr) ->
   loop s' = ALock (scan lines ("inet " ++ GetCIDR m) false) /\
   trace s' = trace s ++ [Exec "ip" ["addr"; "show"; iface m]]) /\
  (l = LRun err ->
   (exists d, loop s = AAct d /\ loop s' = AQuery /\
              trace s' = trace s ++ (if d then snd (ConfigureAddress m err)
                                     else snd (DeconfigureAddress m err))) \/
   (loop s = AFinal /\ loop s' = AReturned /\
    trace s' = trace s ++ snd (DeconfigureAddress m err)
                       ++ [Return "applyLoop"])) /\
  (loop s = AQuery -> step m s (LQuery (Started lines waitErr)) <> None) /\
  ((exists d, loop s = AAct d) \/ loop s = AFinal ->
   step m s (LRun err) <> None).
Proof.
  split; [exact (panic_step_iff m s s' l Hstep)|].
  split; [|split; [|split]].
  - intros ->. unfold step, loop_step in Hstep.
    destruct (loop s); try discriminate Hstep.
    cbn in Hstep. injection Hstep as <-. now split.
  - intros ->. unfold step, loop_step in Hstep.
    destruct (loop s) eqn:E; try discriminate Hstep;
      injection Hstep as <-.
    + left. eexists. repeat split.
    + right. repeat split.
  - intros E. unfold step, loop_step. rewrite E. discriminate.
  - intros [[d E] | E]; unfold step, loop_step; rewrite E; discriminate.
Qed.

Lemma panic_only_when_query_cannot_start_witness :
  step eth0 init
    (LQuery (StartError "fork/exec /sbin/ip: resource temporarily unavailable"))
  = Some state_panicked /\
  (loop state_panicked = APanicked <->
   exists e,
     LQuery (StartError "fork/exec /sbin/ip: resource temporarily unavailable")
     = LQuery (PipeError e) \/
     LQuery (StartError "fork/exec /sbin/ip: resource temporarily unavailable")
     = LQuery (StartError e)) /\
  step eth0 init (LQuery (Started [] None)) <> None.
Proof.
  split; [reflexivity|].
  pose proof (panic_only_when_query_cannot_start eth0 init state_panicked
                (LQuery (StartError
                   "fork/exec /sbin/ip: resource temporarily unavailable"))
                [] None None eq_refl) as [Hiff [_ [_ [Hq _]]]].
  split; [exact Hiff | exact (Hq eq_refl)].
Defined.

(** ** The duplicate probe *)

Lemma ip_only_step (m : IPConfiguration) (s s' : State) (l : Label) :
  forallb runs_ip_only (trace s) = true ->
  step m s l = Some s' ->
  forallb runs_ip_only (trace s') = true.
Proof.
  intros Hc H; revert Hc.
  step_cases H; cbn; rewrite ?forallb_app; cbn; intros ->;
    rewrite ?ip_only_ConfigureAddress, ?ip_only_DeconfigureAddress;
    try reflexivity;
    try (match goal with
         | |- context [if ?d then _ else _] => destruct d
         end;
         rewrite ?ip_only_ConfigureAddress, ?ip_only_DeconfigureAddress;
         reflexivity);
    apply QueryAddress_events in Hquery; destruct Hquery as [-> _];
    reflexivity.
Qed.

(** C10: ConfigureAddress runs [ip addr add] and nothing else; every
    command in a trace of the two goroutines is a run of [ip], so the
    probe is never run there; and ARPQueryDuplicates, on its own, runs
    [arping] and answers true exactly when the command ends without
    error. *)
Theorem probe_not_on_claim_path
  (m : IPConfiguration) (s : State) (err : option error)
  (name : string) (args : list string)
  (Hreach : reachable m s) (Hin : In (Exec name args) (trace s)) :
  name = "ip" /\
  execs (snd (ConfigureAddress m err)) =
    [Exec "ip" ["addr"; "add"; GetCIDR m; "dev"; iface m]] /\
  fst (ARPQueryDuplicates m err) =
    match err with None => true | Some _ => false end /\
  snd (ARPQueryDuplicates m err) =
    [Exec "arping" ["-D"; "-c"; "2"; "-q"; "-w"; "3"; "-I"; iface m; vip m]].
Proof.
  split; [|split; [apply execs_ConfigureAddress | now destruct err]].
  assert (Hall : forallb runs_ip_only (trace s) = true).
  { clear Hin. revert s Hreach. apply reachable_invariant; [reflexivity|].
    intros; eapply ip_only_step; eassumption. }
  rewrite forallb_forall in Hall. specialize (Hall _ Hin). cbn in Hall.
  now apply String.eqb_eq.
Qed.

(** The address is already present when [ip addr add] runs. *)
Lemma probe_not_on_claim_path_witness :
  run eth0 schedule_added init = Some state_added /\
  In (Exec "ip" ["addr"; "add"; "10.0.0.1/2"; "dev"; "eth0"])
    (trace state_added) /\
  fst (ARPQueryDuplicates eth0 (Some (ExitError (SysWaitStatus 512)))) = false.
Proof.
  assert (Hrun : run eth0 schedule_added init = Some state_added)
    by (vm_compute; reflexivity).
  assert (Hin : In (Exec "ip" ["addr"; "add"; "10.0.0.1/2"; "dev"; "eth0"])
                  (trace state_added))
    by (cbn; repeat first [left; reflexivity | right]).
  split; [exact Hrun|]. split; [exact Hin|].
  exact (proj1 (proj2 (proj2
    (probe_not_on_claim_path eth0 state_added
       (Some (ExitError (SysWaitStatus 512))) _ _
       (ex_intro _ schedule_added Hrun) Hin)))).
Defined.

(** ** Cancellation *)

Lemma execs_app (t1 t2 : list Event) : execs (t1 ++ t2) = execs t1 ++ execs t2.
Proof. apply filter_app. Qed.

Lemma leaving_step (m : IPConfiguration) (s0 s s' : State) (l : Label) :
  leaving m s0 s -> step m s l = Some s' -> leaving m s0 s'.
Proof.
  intros Hc H; revert Hc. unfold leaving.
  step_cases H; cbn; rewrite_pcs; cbn;
    intros [Hd [t [Ht Hm]]]; try contradiction; try congruence;
    (split; [first [exact Hd | reflexivity]|]);
    try (exists t; split; [exact Ht | exact Hm]);
    try (eexists; split; [rewrite Ht, <- app_assoc; reflexivity|];
         rewrite execs_app, Hm; cbn;
         rewrite ?execs_app, ?execs_DeconfigureAddress; reflexivity).
Qed.

(** C4: once applyLoop stands at its select after a wake and the
    context is cancelled, whatever the desired state is: its next step
    leads to the final DeconfigureAddress and to nothing else; it can
    always carry on to the end, running [ip addr delete] once,
    returning and leaving the goroutine; and however the other
    goroutine is scheduled in between, applyLoop runs no command before
    and none after that one. *)
Theorem cancellation_one_final_deconfigure
  (m : IPConfiguration) (s s' : State) (ls : list Label) (err : option error)
  (Hpc : loop s = ASelect) (Hdone : done s = true)
  (Hrun : run m ls s = Some s') :
  step m s LApply = Some (set_loop AFinal s) /\
  (forall a, step m s (LQuery a) = None) /\
  (forall e, step m s (LRun e) = None) /\
  (exists s3,
     run m [LApply; LRun err; LApply] s = Some s3 /\
     loop s3 = AExited /\
     trace s3 = trace s ++ snd (DeconfigureAddress m err)
                        ++ [Return "applyLoop"; WgDone]) /\
  (exists t,
     trace s' = trace s ++ t /\
     match loop s' with
     | ASelect | AFinal => execs t = []
     | AReturned | AExited =>
         execs t = [Exec "ip" ["addr"; "delete"; GetCIDR m; "dev"; iface m]]
     | _ => False
     end).
Proof.
  assert (Hal : loop s <> APanicked) by congruence.
  split; [|split; [|split; [|split]]].
  - rewrite step_alive by exact Hal. unfold loop_step. now rewrite Hpc, Hdone.
  - intros a. rewrite step_alive by exact Hal. unfold loop_step. now rewrite Hpc.
  - intros e. rewrite step_alive by exact Hal. unfold loop_step. now rewrite Hpc.
  - cbn [run]. rewrite step_alive by exact Hal.
    unfold loop_step at 1. rewrite Hpc, Hdone.
    eexists. split; [reflexivity|]. split; [reflexivity|].
    cbn. now rewrite <- !app_assoc.
  - assert (H0 : leaving m s s).
    { split; [exact Hdone|]. exists []. rewrite app_nil_r, Hpc. now split. }
    destruct (run_invariant m (leaving m s)
                (fun a l b => leaving_step m s a b l) ls s s' H0 Hrun)
      as [_ Ht].
    exact Ht.
Qed.

Lemma cancellation_one_final_deconfigure_witness :
  run eth0 schedule_select init = Some state_select /\
  loop state_select = ASelect /\
  done state_select = true /\
  exists s3,
    run eth0 [LApply; LRun None; LApply] state_select = Some s3 /\
    loop s3 = AExited /\
    trace s3 = trace state_select ++ snd (DeconfigureAddress eth0 None)
                 ++ [Return "applyLoop"; WgDone].
Proof.
  split; [vm_compute; reflexivity|]. split; [reflexivity|].
  split; [reflexivity|].
  exact (proj1 (proj2 (proj2 (proj2
    (cancellation_one_final_deconfigure eth0 state_select state_select
       [] None eq_refl eq_refl eq_refl))))).
Defined.


(** ** The return of SyncStates *)

Lemma released_app (m : IPConfiguration) (tr evs : list Event) :
  released m tr -> released m (tr ++ evs).
Proof.
  intros [t1 [t2 [err ->]]]. exists t1, (t2 ++ evs), err.
  now rewrite <- !app_assoc.
Qed.

Lemma released_done_app (m : IPConfiguration) (tr evs : list Event) :
  released_done m tr -> released_done m (tr ++ evs).
Proof.
  intros [t1 [t2 [err [-> Hin]]]]. exists t1, (t2 ++ evs), err. split.
  - now rewrite <- !app_assoc.
  - apply in_or_app. now left.
Qed.

Lemma released_then_done (m : IPConfiguration) (tr : list Event) :
  released m tr -> released_done m (tr ++ [WgDone]).
Proof.
  intros [t1 [t2 [err ->]]]. exists t1, (t2 ++ [WgDone]), err. split.
  - now rewrite <- !app_assoc.
  - apply in_or_app. right. now left.
Qed.

Lemma released_now (m : IPConfiguration) (tr : list Event) (err : option error) :
  released m (tr ++ snd (DeconfigureAddress m err) ++ [Return "applyLoop"]).
Proof. now exists tr, [], err. Qed.

Ltac break_hyps :=
  repeat match goal with
         | H : _ /\ _ |- _ => destruct H
         | H : exists _, _ |- _ => destruct H
         end.

Ltac shutdown_goal m :=
  repeat match goal with
         | |- _ /\ _ => split
         | |- _ = _ => first [assumption | reflexivity | congruence]
         | E : wg ?s = _ |- context [wg ?s] => rewrite E
         | E : existsb _ ?t = false |- context [existsb _ ?t] => rewrite E
         | |- In _ (trace _) => assumption
         | |- exists pre, _ ++ [_] = pre ++ [_] /\ _ =>
             eexists; split; [reflexivity|]
         | |- In _ (_ ++ _) =>
             apply in_or_app; first [left; assumption | right; cbn; tauto]
         | |- existsb is_sync_return (_ ++ _) = false =>
             rewrite !existsb_app,
               ?no_return_ConfigureAddress, ?no_return_DeconfigureAddress;
             cbn; rewrite ?orb_false_r
         | |- released m (_ ++ snd (DeconfigureAddress m _) ++ _) =>
             apply released_now
         | |- released_done m (_ ++ [WgDone]) =>
             apply released_then_done
         | |- released _ (_ ++ _) => apply released_app
         | |- released_done _ (_ ++ _) => apply released_done_app
         | |- released _ _ => assumption
         | |- released_done _ _ => assumption
         end.

Lemma shutdown_inv_step (m : IPConfiguration) (s s' : State) (l : Label) :
  shutdown_inv m s -> step m s l = Some s' -> shutdown_inv m s'.
Proof.
  intros Hc H; revert Hc. unfold shutdown_inv.
  step_cases H; cbn; rewrite_pcs; cbn;
    try match goal with
        | Hq : QueryAddress _ _ = _ |- _ =>
            apply QueryAddress_events in Hq; destruct Hq as [_ [Hq _]]
        end;
    try match goal with |- context [sync ?s] => destruct (sync s) end; cbn;
    try match goal with
        | |- context [if ?d then snd _ else snd _] => destruct d
        end;
    intros Hc; break_hyps; try discriminate; try congruence;
    shutdown_goal m.
Qed.


Lemma reachable_shutdown_inv (m : IPConfiguration) (s : State) :
  reachable m s -> shutdown_inv m s.
Proof.
  apply reachable_invariant.
  - repeat split.
  - intros; eapply shutdown_inv_step; eassumption.
Qed.

(** C9: when the select of SyncStates takes the cancellation, SyncStates
    broadcasts and goes to [wg.Wait()]; there it moves on exactly when
    the goroutine of applyLoop is over; and in every execution, once
    SyncStates has returned, the trace shows, in this order, the final
    DeconfigureAddress with the return of applyLoop right after it, the
    [wg.Done()] of the goroutine, and the return of SyncStates as the
    last event, with the broadcast of the cancellation before it. *)
Theorem SyncStates_returns_after_final_deconfigure
  (m : IPConfiguration) (s : State) (Hreach : reachable m s) :
  (sync s = SSelect -> done s = true -> loop s <> APanicked ->
   step m s LDone = Some (set_sync SWait (broadcast OnDone s))) /\
  (sync s = SWait -> (step m s LSync <> None <-> loop s = AExited)) /\
  (In (Return "SyncStates") (trace s) ->
   sync s = SReturned /\ loop s = AExited /\ done s = true /\
   exists t1 t2 err,
     trace s = t1 ++ snd (DeconfigureAddress m err)
                  ++ Return "applyLoop" :: t2 ++ [Return "SyncStates"] /\
     In WgDone t2 /\
     In (Broadcast OnDone)
        (t1 ++ snd (DeconfigureAddress m err) ++ Return "applyLoop" :: t2) /\
     ~ In (Return "SyncStates")
        (t1 ++ snd (DeconfigureAddress m err) ++ Return "applyLoop" :: t2)).
Proof.
  pose proof (reachable_shutdown_inv m s Hreach) as [Hwg Hsync].
  split; [|split].
  - intros Hsy Hd Hal. rewrite step_alive by exact Hal.
    unfold sync_step. now rewrite Hsy, Hd.
  - intros Hsy. unfold step, sync_step. rewrite Hsy.
    destruct (loop s);
      try match type of Hwg with _ /\ _ => destruct Hwg as [Hwg _] end;
      rewrite ?Hwg; split; congruence.
  - intros Hin.
    assert (Hex : existsb is_sync_return (trace s) = true).
    { apply existsb_exists. eexists. split; [exact Hin | reflexivity]. }
    destruct (sync s); try congruence.
    + destruct Hsync as [_ [_ Hno]]. congruence.
    + destruct Hsync as [Hd [Hl [pre [Htr [[t1 [t2 [err [Hpre Hdn]]]] [Hb Hno]]]]]].
      repeat split; try assumption.
      exists t1, t2, err. rewrite <- Hpre. repeat split; try assumption.
      * rewrite Htr, Hpre. now rewrite <- !app_assoc.
      * intros Hin'.
        assert (existsb is_sync_return pre = true); [|congruence].
        apply existsb_exists. eexists. split; [exact Hin' | reflexivity].
Qed.

Lemma SyncStates_returns_after_final_deconfigure_witness :
  run eth0 schedule_returned init = Some state_returned /\
  In (Return "SyncStates") (trace state_returned) /\
  sync state_returned = SReturned /\ loop state_returned = AExited.
Proof.
  assert (Hrun : run eth0 schedule_returned init = Some state_returned)
    by (vm_compute; reflexivity).
  assert (Hin : In (Return "SyncStates") (trace state_returned))
    by (cbn; repeat first [left; reflexivity | right]).
  split; [exact Hrun|]. split; [exact Hin|].
  destruct (proj2 (proj2
    (SyncStates_returns_after_final_deconfigure eth0 state_returned
       (ex_intro _ schedule_returned Hrun))) Hin) as [Hs [Hl _]].
  split; [exact Hs | exact Hl].
Defined.

(** The broadcast of line 88 is sent without the lock: when applyLoop
    is not parked yet it is lost, applyLoop parks afterwards, and
    nothing moves any more. SyncStates then never returns. *)
Remark cancel_broadcast_can_be_missed :
  run eth0 schedule_parked init = Some state_parked /\
  done state_parked = true /\
  sync state_parked = SWait /\
  loop state_parked = AWait /\
  execs (trace state_parked) = [Exec "ip" ["addr"; "show"; "eth0"]] /\
  forall l, step eth0 state_parked l = None.
Proof.
  split; [vm_compute; reflexivity|].
  repeat split. intros l; destruct l; reflexivity.
Qed.


End ManagerProofs.

(* ===================================================================== *)
(** * Properties of the leader checker                                   *)
(* ===================================================================== *)

Module CheckerProofs.
Import Checker.

Lemma watcher_run_app (c : ConsulLeaderChecker) (l1 l2 : list Label) (s : State) :
  run c (l1 ++ l2) s =
  match run c l1 s with
  | Some s' => run c l2 s'
  | None => None
  end.
Proof.
  revert s; induction l1 as [|l l1 IH]; intros s; simpl; [reflexivity|].
  destruct (step c s l); [apply IH | reflexivity].
Qed.

Lemma sent_app (t1 t2 : list Event) : sent (t1 ++ t2) = sent t1 ++ sent t2.
Proof.
  induction t1 as [|e t1 IH]; [reflexivity|].
  destruct e; cbn; rewrite IH; reflexivity.
Qed.

Lemma sleeps_app (t1 t2 : list Event) :
  sleeps (t1 ++ t2) = sleeps t1 ++ sleeps t2.
Proof.
  induction t1 as [|e t1 IH]; [reflexivity|].
  destruct e; cbn; rewrite IH; reflexivity.
Qed.

Lemma queried_app (t1 t2 : list Event) :
  queried (t1 ++ t2) = queried t1 ++ queried t2.
Proof.
  induction t1 as [|e t1 IH]; [reflexivity|].
  destruct e; cbn; rewrite IH; reflexivity.
Qed.

Lemma printed_app (t1 t2 : list Event) :
  printed (t1 ++ t2) = printed t1 + printed t2.
Proof.
  induction t1 as [|e t1 IH]; [reflexivity|].
  destruct e; cbn; rewrite IH; reflexivity.
Qed.

(** ** Successful reads *)

Lemma watcher_run_deliver (c : ConsulLeaderChecker) (reads : list (string * Z))
  (s0 : State) :
  pc s0 = PGet ->
  exists s,
    run c (deliver reads) s0 = Some s /\
    sent (trace s) =
      sent (trace s0) ++ map (fun r => String.eqb (fst r) (nodename c)) reads /\
    queried (trace s) =
      queried (trace s0) ++ removelast (WaitIndex s0 :: map snd reads) /\
    pc s = PGet /\
    WaitIndex s = last (map snd reads) (WaitIndex s0) /\
    ctxErr s = ctxErr s0.
Proof.
  revert s0; induction reads as [|[v i] reads IH]; intros s0 Hpc.
  - exists s0. cbn. rewrite !app_nil_r. repeat split; assumption.
  - cbn [deliver flat_map app run fst snd].
    unfold step at 1. rewrite Hpc. unfold step at 1. cbn [pc].
    match goal with
    | |- context [run c _ ?s1] => destruct (IH s1 eq_refl)
        as [s [Hrun [Hsent [Hq [Hpc' [Hidx Hctx]]]]]]
    end.
    exists s. fold (deliver reads). rewrite Hrun.
    split; [reflexivity|].
    split; [|split; [|split; [exact Hpc'|split; [|exact Hctx]]]].
    + rewrite Hsent. cbn [trace]. rewrite !sent_app. cbn.
      now rewrite app_nil_r, <- app_assoc.
    + rewrite Hq. cbn [trace WaitIndex]. rewrite !queried_app. cbn [queried].
      rewrite app_nil_r, <- app_assoc. reflexivity.
    + rewrite Hidx. cbn [WaitIndex map snd].
      now rewrite last_cons_default.
Qed.

(** C5, as stated, fails: the marker goes from node2 to node1 and back
    to node2, and one blocking read returns at the server-side timeout
    with the value and the index unchanged; the stream is false, false,
    true, false, where the specification has false, true, false. *)
Lemma timeout_read_emits_again :
  let reads := [("node2", 7%Z); ("node2", 7%Z); ("node1", 8%Z); ("node2", 9%Z)] in
  option_map (fun s => sent (trace s)) (run node1 (deliver reads) init)
  = Some [false; false; true; false] /\
  spec_emitted node1 reads = [false; true; false].
Proof. split; reflexivity. Qed.

(** C5, as amended: the watcher emits one boolean for each successful
    read it delivers, true exactly when the value read is the node
    identifier, in the order of the reads and whether or not the value
    or its index changed; each read asks for a change past the index of
    the read before. For the node node1 and reads that return node2,
    node1, node2 once each the stream is false, true, false. *)
Theorem one_boolean_per_delivered_read
  (c : ConsulLeaderChecker) (reads : list (string * Z)) :
  (exists s,
     run c (deliver reads) init = Some s /\
     sent (trace s) = map (fun r => String.eqb (fst r) (nodename c)) reads /\
     queried (trace s) = removelast (0%Z :: map snd reads) /\
     pc s = PGet /\
     WaitIndex s = last (map snd reads) 0%Z) /\
  option_map (fun s => sent (trace s))
    (run node1 (deliver [("node2", 7%Z); ("node1", 8%Z); ("node2", 9%Z)]) init)
  = Some [false; true; false].
Proof.
  split; [|reflexivity].
  destruct (watcher_run_deliver c reads init eq_refl)
    as [s [Hrun [Hsent [Hq [Hpc [Hidx _]]]]]].
  exists s. repeat split; assumption.
Qed.

(** ** Failed reads and the return *)

Lemma run_failures (c : ConsulLeaderChecker) (fs : list GetAnswer) (s : State) :
  pc s = PGet -> forallb (retried (ctxErr s)) fs = true ->
  exists s',
    run c (map LGet fs) s = Some s' /\
    pc s' = PGet /\ ctxErr s' = ctxErr s /\
    WaitIndex s' = WaitIndex s /\
    sent (trace s') = sent (trace s) /\
    queried (trace s') =
      queried (trace s) ++ repeat (WaitIndex s) (List.length fs) /\
    sleeps (trace s') =
      sleeps (trace s) ++ repeat 1000000000%Z (List.length fs) /\
    printed (trace s') = printed (trace s) + List.length fs.
Proof.
  revert s; induction fs as [|f fs IH]; intros s Hpc Hf.
  - exists s. cbn. rewrite !app_nil_r, Nat.add_0_r. repeat split; assumption.
  - cbn [forallb] in Hf. apply andb_prop in Hf. destruct Hf as [Hf1 Hf].
    cbn [map run]. unfold step at 1. rewrite Hpc.
    destruct f as [err| |v i]; [| |discriminate];
      [destruct (ctxErr s) eqn:Hctx; [discriminate|]|];
      match goal with
      | |- context [run c _ ?s1] =>
          destruct (IH s1 eq_refl
                      ltac:(cbn; first [exact Hf | rewrite Hctx; exact Hf]))
            as [s' [Hrun [Hpc' [Hctx' [Hidx [Hsent [Hq [Hsl Hpr]]]]]]]]
      end;
      exists s'; rewrite Hrun; cbn [trace WaitIndex ctxErr] in *;
      rewrite ?sent_app, ?queried_app, ?sleeps_app, ?printed_app in *;
      cbn [sent queried sleeps printed app repeat List.length] in *;
      rewrite ?app_nil_r in *;
      (split; [reflexivity|]); repeat split; try assumption;
      try congruence;
      try (rewrite Hq, <- app_assoc; reflexivity);
      try (rewrite Hsl, <- app_assoc; reflexivity);
      try (rewrite Hpr; cbn; lia).
Qed.

Lemma returned_inv_step (c : ConsulLeaderChecker) (s s' : State) (l : Label) :
  returned_inv s -> step c s l = Some s' -> returned_inv s'.
Proof.
  unfold returned_inv, step. intros Hi H.
  destruct l as [e|a| |]; destruct (pc s) eqn:Hpc;
    try destruct a; try destruct (ctxErr s) eqn:Hctx;
    try discriminate H; injection H as <-; cbn; rewrite ?Hpc; try exact I.
  - destruct Hi as [Hr [Hn _]]. congruence.
  - split; [reflexivity|]. split; [discriminate|].
    exists (trace s ++ [Get (key c) true (WaitIndex s)]).
    now rewrite <- app_assoc.
  - split; [reflexivity|]. split; [discriminate|]. now exists (trace s).
Qed.

Lemma run_returned_inv (c : ConsulLeaderChecker) (ls : list Label)
  (s s' : State) :
  returned_inv s -> run c ls s = Some s' -> returned_inv s'.
Proof.
  revert s; induction ls as [|l ls IH]; intros s Hi Hrun; simpl in Hrun.
  - now injection Hrun as <-.
  - destruct (step c s l) as [s1|] eqn:Hs; [|discriminate].
    eapply IH; [|exact Hrun]. eapply returned_inv_step; eassumption.
Qed.

(** C6: a read that finds no record, or that fails while the context
    is not cancelled, is followed by one printed line and a sleep of
    one second, and the next read asks with the same index; this holds
    for any number of such reads in a row, each sleep being one second;
    and whenever the function has returned, the context had ended, the
    value returned is the error of the context, and nothing follows. *)
Theorem watcher_retries_until_cancelled
  (c : ConsulLeaderChecker) (s : State) (fs : list GetAnswer)
  (ls : list Label) (sx : State) (r : option CtxError)
  (Hpc : pc s = PGet)
  (Hfail : forallb (retried (ctxErr s)) fs = true)
  (Hrun : run c ls init = Some sx) (Hret : pc sx = PReturned r) :
  (exists s',
     run c (map LGet fs) s = Some s' /\
     pc s' = PGet /\
     WaitIndex s' = WaitIndex s /\
     sent (trace s') = sent (trace s) /\
     queried (trace s') =
       queried (trace s) ++ repeat (WaitIndex s) (List.length fs) /\
     sleeps (trace s') =
       sleeps (trace s) ++ repeat (1 * Second)%Z (List.length fs) /\
     printed (trace s') = printed (trace s) + List.length fs) /\
  r = ctxErr sx /\ r <> None /\
  (exists pre, trace sx = pre ++ [Return r]) /\
  (forall l, step c sx l = None).
Proof.
  split.
  - destruct (run_failures c fs s Hpc Hfail)
      as [s' [H1 [H2 [_ [H3 [H4 [H5 [H6 H7]]]]]]]].
    exists s'. repeat split; assumption.
  - assert (Hi : returned_inv sx)
      by (eapply run_returned_inv; [|exact Hrun]; exact I).
    unfold returned_inv in Hi. rewrite Hret in Hi.
    destruct Hi as [Hr [Hn Hpre]].
    repeat split; try assumption.
    intros l. unfold step. rewrite Hret.
    destruct l as [e|a| |]; try reflexivity.
    destruct (ctxErr sx); [reflexivity | congruence].
Qed.

Lemma watcher_retries_until_cancelled_witness :
  run node1 schedule_cancelled init = Some state_cancelled /\
  pc state_cancelled = PReturned (Some Canceled) /\
  (exists s',
     run node1 (map LGet [GetError "connection refused"; GetNil; GetNil]) init
     = Some s' /\
     WaitIndex s' = 0%Z /\
     sleeps (trace s') = [1000000000; 1000000000; 1000000000]%Z) /\
  ctxErr state_cancelled = Some Canceled.
Proof.
  assert (Hrun : run node1 schedule_cancelled init = Some state_cancelled)
    by (vm_compute; reflexivity).
  destruct (watcher_retries_until_cancelled node1 init
              [GetError "connection refused"; GetNil; GetNil]
              schedule_cancelled state_cancelled (Some Canceled)
              eq_refl eq_refl Hrun eq_refl)
    as [[s' [H1 [_ [H3 [_ [_ [H6 _]]]]]]] [Hr _]].
  split; [exact Hrun|]. split; [reflexivity|]. split.
  - exists s'. split; [exact H1|]. split; [exact H3 | exact H6].
  - symmetry. exact Hr.
Defined.

(** X16: lines 64-68 do not look at the context: while the record is
    absent the function goes on after the cancellation, one sleep of a
    second after the other, for any number of reads. *)
Remark absent_record_outlives_cancellation (c : ConsulLeaderChecker) (n : nat) :
  exists s,
    run c (LCancel Canceled :: map LGet (repeat GetNil n)) init = Some s /\
    pc s = PGet /\ ctxErr s = Some Canceled /\
    sleeps (trace s) = repeat 1000000000%Z n.
Proof.
  cbn [run step init pc ctxErr].
  match goal with
  | |- context [run c _ ?s1] =>
      destruct (run_failures c (repeat GetNil n) s1 eq_refl)
        as [s [H1 [H2 [H3 [_ [_ [_ [H6 _]]]]]]]]
  end.
  - cbn. induction n; [reflexivity | assumption].
  - exists s. rewrite repeat_length in H6. repeat split; assumption.
Qed.

End CheckerProofs.

(* ===================================================================== *)
(** * Further properties of the address manager                          *)
(* ===================================================================== *)

Module ManagerMore.
Import Manager ManagerProofs.

(** ** Events of the helpers *)

Lemma os_events_ConfigureAddress (m : IPConfiguration) (err : option error) :
  forallb is_os_event (snd (ConfigureAddress m err)) = true.
Proof. mutation_cases err. Qed.

Lemma os_events_DeconfigureAddress (m : IPConfiguration) (err : option error) :
  forallb is_os_event (snd (DeconfigureAddress m err)) = true.
Proof. mutation_cases err. Qed.

Lemma os_events_QueryAddress (m : IPConfiguration) (a : QueryAnswer) :
  forallb is_os_event (snd (QueryAddress m a)) = true.
Proof. destruct a; reflexivity. Qed.

Lemma filter_os_events (f : Event -> bool) (evs : list Event) :
  (forall e, is_os_event e = true -> f e = false) ->
  forallb is_os_event evs = true -> filter f evs = [].
Proof.
  intros Hf; induction evs as [|e evs IH]; cbn; [reflexivity|].
  intros H. apply andb_prop in H. destruct H as [He Hr].
  rewrite (Hf e He). now apply IH.
Qed.

Lemma execs_no_exec (evs : list Event) :
  forallb (fun e => negb (is_exec e)) evs = true -> execs evs = [].
Proof.
  induction evs as [|e evs IH]; cbn; [reflexivity|].
  intros H. apply andb_prop in H. destruct H as [He Hr].
  destruct (is_exec e); [discriminate|]. now apply IH.
Qed.

(** ** The lock *)

(** X1: in every reachable state the lock is held by SyncStates exactly
    while it stands at lines 80-84 and by applyLoop exactly while it
    stands between its Lock and its Unlock or Wait (lines 40-42) or is
    back from Wait (line 53), and the two are never there at once; and
    whenever a step from the state runs a command, it is applyLoop that
    runs it and applyLoop does not hold the lock, before or after. *)
Theorem lock_never_held_across_a_command
  (m : IPConfiguration) (s : State) (Hreach : reachable m s) :
  (forall b, sync s = SHeld b ->
     stateLock s = Some Coordinator /\
     (forall a, loop s <> AHeld a) /\ loop s <> AWoken) /\
  ((exists a, loop s = AHeld a) \/ loop s = AWoken ->
     stateLock s = Some Reconciler /\ forall b, sync s <> SHeld b) /\
  (stateLock s = Some Coordinator -> exists b, sync s = SHeld b) /\
  (stateLock s = Some Reconciler ->
     (exists a, loop s = AHeld a) \/ loop s = AWoken) /\
  (forall l s',
     step m s l = Some s' -> execs (trace s') <> execs (trace s) ->
     ((exists a, l = LQuery a) \/ (exists e, l = LRun e)) /\
     stateLock s <> Some Reconciler /\
     stateLock s' <> Some Reconciler).
Proof.
  destruct (reachable_coherent m s Hreach) as [Hl [Hx _]].
  unfold holds_lock in Hl.
  split; [|split; [|split; [|split]]].
  - intros b Hb. rewrite Hb in Hl, Hx. split; [exact Hl|].
    destruct (loop s); try contradiction; split; congruence.
  - intros Hin. destruct (sync s) eqn:Es;
      destruct Hin as [[a Ha] | Ha]; try rewrite Ha in Hl;
      try (rewrite Ha in Hx; contradiction); split; congruence.
  - intros Hc. rewrite Hc in Hl.
    destruct (sync s); [| |eauto| |]; destruct (loop s); discriminate.
  - intros Hc. rewrite Hc in Hl.
    destruct (sync s); try discriminate; destruct (loop s);
      try discriminate; eauto.
  - intros l s' Hstep Hcmd. split; [|split].
    + revert Hcmd. step_cases Hstep; cbn; rewrite ?execs_app; cbn;
        rewrite ?app_nil_r; intros Hc;
        try (exfalso; apply Hc; reflexivity); eauto.
    + revert Hcmd Hl. step_cases Hstep; cbn; rewrite ?execs_app; cbn;
        rewrite ?app_nil_r; intros Hc;
        try (exfalso; apply Hc; reflexivity); rewrite_pcs;
        destruct (sync s); congruence.
    + revert Hcmd Hl. step_cases Hstep; cbn; rewrite ?execs_app; cbn;
        rewrite ?app_nil_r; intros Hc;
        try (exfalso; apply Hc; reflexivity); rewrite_pcs;
        destruct (sync s); congruence.
Qed.

Lemma lock_never_held_across_a_command_witness :
  run eth0 schedule_held init = Some state_held /\
  loop state_held = AHeld false /\
  stateLock state_held = Some Reconciler /\
  (forall b, sync state_held <> SHeld b).
Proof.
  assert (Hrun : run eth0 schedule_held init = Some state_held)
    by (vm_compute; reflexivity).
  destruct (lock_never_held_across_a_command eth0 state_held
              (ex_intro _ schedule_held Hrun))
    as [_ [Hloop _]].
  destruct (Hloop (or_introl (ex_intro _ false eq_refl))) as [Hlk Hsy].
  split; [exact Hrun|]. split; [reflexivity|]. split; [exact Hlk | exact Hsy].
Defined.

(** ** The desired state *)

(** X2: a step changes [currentState] only when it is SyncStates, with
    the lock in its hands, storing the value it took from the channel;
    the step then also broadcasts, and wakes applyLoop if it is
    parked. *)
Theorem desired_state_changes_only_under_the_lock
  (m : IPConfiguration) (s s' : State) (l : Label)
  (Hreach : reachable m s) (Hstep : step m s l = Some s')
  (Hchg : currentState s' <> currentState s) :
  l = LSync /\
  sync s = SHeld (currentState s') /\
  stateLock s = Some Coordinator /\
  stateLock s' = None /\
  trace s' = trace s ++ [Broadcast OnState] /\
  loop s' = wake (loop s).
Proof.
  destruct (reachable_coherent m s Hreach) as [Hl _].
  unfold holds_lock in Hl. revert Hchg Hl.
  step_cases Hstep; cbn; rewrite_pcs; try congruence;
    intros _ Hl; repeat split; assumption.
Qed.

Lemma desired_state_changes_only_under_the_lock_witness :
  exists s',
    step eth0 state_pending LSync = Some s' /\
    currentState s' = true /\ currentState state_pending = false /\
    trace s' = trace state_pending ++ [Broadcast OnState].
Proof.
  assert (Hr : reachable eth0 state_pending)
    by (exists schedule_pending; reflexivity).
  eexists. split; [reflexivity|]. split; [reflexivity|].
  split; [reflexivity|].
  exact (proj1 (proj2 (proj2 (proj2 (proj2
    (desired_state_changes_only_under_the_lock eth0 state_pending _ LSync
       Hr eq_refl ltac:(discriminate))))))).
Defined.

(** ** Leaving *)

Lemma no_return_in_os_events (evs : list Event) :
  forallb is_os_event evs = true -> existsb is_return evs = false.
Proof.
  induction evs as [|e evs IH]; cbn; [reflexivity|].
  intros H. apply andb_prop in H. destruct H as [He Hr].
  rewrite (IH Hr). destruct e; try discriminate; reflexivity.
Qed.

Lemma leaving_needs_cancel_step (m : IPConfiguration) (s s' : State) (l : Label) :
  leaving_needs_cancel s -> step m s l = Some s' -> leaving_needs_cancel s'.
Proof.
  intros [Hd | Hn] H.
  - left. step_cases H; cbn; congruence.
  - revert Hn. unfold leaving_needs_cancel.
    step_cases H; cbn; rewrite_pcs; cbn;
      try (intros _; left; reflexivity);
      try match goal with |- context [sync ?s] => destruct (sync s) end;
      intros [Hr [Hl Hs]]; try contradiction; right;
      rewrite ?existsb_app, ?Hr; cbn;
      (split; [|split; exact I]);
      try reflexivity.
    all: try match goal with
             | Hq : QueryAddress ?m ?a = (_, ?evs) |- _ =>
                 pose proof (os_events_QueryAddress m a) as Ho;
                 rewrite Hq in Ho; now apply no_return_in_os_events
             end.
    all: try (match goal with
              | |- context [if ?d then _ else _] => destruct d
              end;
              apply no_return_in_os_events;
              first [apply os_events_ConfigureAddress
                    | apply os_events_DeconfigureAddress]).
Qed.

(** X3: as long as the context is not cancelled nothing returns:
    neither applyLoop nor SyncStates has returned, applyLoop is not on
    its way to the final DeconfigureAddress and SyncStates is not
    waiting for the goroutine. *)
Theorem nothing_returns_before_cancellation
  (m : IPConfiguration) (s : State) (fn : string)
  (Hreach : reachable m s)
  (Hleft : In (Return fn) (trace s) \/
           loop s = AFinal \/ loop s = AReturned \/ loop s = AExited \/
           sync s = SWait \/ sync s = SReturned) :
  done s = true.
Proof.
  assert (Hi : leaving_needs_cancel s).
  { clear Hleft. revert s Hreach. apply reachable_invariant.
    - right. repeat split.
    - intros; eapply leaving_needs_cancel_step; eassumption. }
  destruct Hi as [Hd | [Hr [Hl Hs]]]; [exact Hd|]. exfalso.
  destruct Hleft as [H | [H | [H | [H | [H | H]]]]];
    try (rewrite H in Hl; exact Hl); try (rewrite H in Hs; exact Hs).
  assert (existsb is_return (trace s) = true); [|congruence].
  apply existsb_exists. exists (Return fn). now split.
Qed.

Lemma nothing_returns_before_cancellation_witness :
  In (Return "applyLoop") (trace state_returned) /\
  done state_returned = true.
Proof.
  assert (Hin : In (Return "applyLoop") (trace state_returned))
    by (cbn; repeat first [left; reflexivity | right]).
  split; [exact Hin|].
  apply (nothing_returns_before_cancellation eth0 state_returned "applyLoop").
  - exists schedule_returned. vm_compute. reflexivity.
  - left. exact Hin.
Defined.

(** ** Broadcasts for changes *)

Lemma changes_snoc (prev b : bool) (bs : list bool) :
  changes prev (bs ++ [b]) =
  changes prev bs + (if Bool.eqb (last bs prev) b then 0 else 1).
Proof.
  revert prev; induction bs as [|c bs IH]; intros prev.
  - cbn. lia.
  - change ((c :: bs) ++ [b]) with (c :: (bs ++ [b])).
    cbn [changes]. rewrite IH, last_cons_default. lia.
Qed.

Lemma no_state_broadcast_in_os_events (evs : list Event) :
  forallb is_os_event evs = true ->
  List.length (filter is_state_broadcast evs) = 0.
Proof.
  intros H. rewrite (filter_os_events is_state_broadcast evs); [reflexivity| |exact H].
  intros e He. destruct e; try discriminate; reflexivity.
Qed.

Lemma counts_changes_step (m : IPConfiguration) (s s' : State) (l : Label) :
  counts_changes s -> step m s l = Some s' -> counts_changes s'.
Proof.
  intros Hc H; revert Hc. unfold counts_changes.
  step_cases H; cbn; rewrite_pcs; cbn;
    rewrite ?filter_app, ?length_app, ?changes_snoc, ?last_last; cbn;
    intros [Hn Hl]; rewrite <- ?Hl, ?Hcmp, ?Hn; cbn;
    try match goal with
        | |- context [if ?d then snd _ else snd _] => destruct d
        end;
    rewrite ?(no_state_broadcast_in_os_events _ (os_events_ConfigureAddress _ _)),
            ?(no_state_broadcast_in_os_events _ (os_events_DeconfigureAddress _ _));
    try match goal with
        | Hq : QueryAddress ?m ?a = (_, ?evs) |- _ =>
            pose proof (os_events_QueryAddress m a) as Ho;
            rewrite Hq in Ho; cbn in Ho;
            rewrite (no_state_broadcast_in_os_events _ Ho)
        end;
    (split; [lia | first [exact Hl | reflexivity | now apply eqb_prop]]).
Qed.

(** X4: in every reachable state the broadcasts of line 82 sent so far
    are as many as the changes of value along the booleans handled so
    far, counted from the initial false: a boolean equal to the one
    before it costs no broadcast. *)
Theorem one_state_broadcast_per_change
  (m : IPConfiguration) (s : State) (Hreach : reachable m s) :
  List.length (filter is_state_broadcast (trace s)) =
  changes false (applied s).
Proof.
  assert (Hi : counts_changes s).
  { revert s Hreach. apply reachable_invariant; [split; reflexivity|].
    intros; eapply counts_changes_step; eassumption. }
  exact (proj1 Hi).
Qed.

Lemma one_state_broadcast_per_change_witness :
  applied state_repeated = [true; true; false; false] /\
  List.length (filter is_state_broadcast (trace state_repeated)) = 2.
Proof.
  split; [reflexivity|].
  assert (Hr : reachable eth0 state_repeated)
    by (exists schedule_repeated; vm_compute; reflexivity).
  exact (one_state_broadcast_per_change eth0 state_repeated Hr).
Defined.

(** ** A cancellation that nobody hears *)

(** X5: for every configuration there is an execution in which the
    context is cancelled while applyLoop is busy with its query:
    SyncStates broadcasts (line 88) while nobody is parked, goes to
    [wg.Wait()], applyLoop then finds nothing to do and parks; from
    there no step is possible, so SyncStates never returns and the
    final DeconfigureAddress is never run. *)
Theorem cancellation_broadcast_can_be_lost (m : IPConfiguration) :
  exists s,
    run m schedule_parked init = Some s /\
    done s = true /\ sync s = SWait /\ loop s = AWait /\
    trace s =
      [Broadcast OnDone; Exec "ip" ["addr"; "show"; iface m];
       Printf "IP address %s state is %t, desired %t"
         [AString (GetCIDR m); ABool false; ABool false]] /\
    forall l ls, run m (l :: ls) s = None.
Proof.
  eexists. split; [cbn; reflexivity|].
  split; [reflexivity|]. split; [reflexivity|]. split; [reflexivity|].
  split; [reflexivity|].
  intros l ls. cbn [run]. destruct l; reflexivity.
Qed.

(** ** Passes that act *)

Lemma acting_pass_runs (m : IPConfiguration) (s : State) (d : bool)
  (lines : list string) (waitErr err : option error) :
  loop s = AQuery -> stateLock s = None -> currentState s = d ->
  scan lines ("inet " ++ GetCIDR m) false = negb d ->
  run m (acting_pass lines waitErr err) s =
  Some (set_loop AQuery
          (emit ([Exec "ip" ["addr"; "show"; iface m];
                  Printf "IP address %s state is %t, desired %t"
                    [AString (GetCIDR m); ABool (negb d); ABool d]]
                 ++ (if d then snd (ConfigureAddress m err)
                     else snd (DeconfigureAddress m err))) s)).
Proof.
  intros Hpc Hlk Hcur Hscan. destruct s; cbn in Hpc, Hlk, Hcur; subst.
  cbv beta iota zeta delta
    [acting_pass run step loop_step set_loop set_stateLock emit loop
     stateLock currentState done wg ticker sync applied trace QueryAddress].
  rewrite Hscan.
  destruct d;
    cbv beta iota zeta delta
      [set_loop set_stateLock emit loop stateLock currentState done wg
       ticker sync applied trace negb Bool.eqb];
    rewrite <- !app_assoc; reflexivity.
Qed.

Lemma acting_passes_run (m : IPConfiguration) (n : nat) (s : State) (d : bool)
  (lines : list string) (waitErr err : option error) :
  loop s = AQuery -> stateLock s = None -> currentState s = d ->
  scan lines ("inet " ++ GetCIDR m) false = negb d ->
  exists s',
    run m (acting_passes n lines waitErr err) s = Some s' /\
    loop s' = AQuery /\ stateLock s' = None /\ currentState s' = d /\
    done s' = done s /\ sync s' = sync s /\
    execs (trace s') =
      execs (trace s) ++
      List.concat (repeat [Exec "ip" ["addr"; "show"; iface m];
                      Exec "ip" ["addr"; if d then "add" else "delete";
                                 GetCIDR m; "dev"; iface m]] n) /\
    filter is_broadcast (trace s') = filter is_broadcast (trace s).
Proof.
  intros Hpc Hlk Hcur Hscan. revert s Hpc Hlk Hcur.
  induction n as [|n IH]; intros s Hpc Hlk Hcur.
  - exists s. cbn. rewrite app_nil_r. repeat split; assumption.
  - cbn [acting_passes]. rewrite run_app.
    rewrite (acting_pass_runs m s d lines waitErr err Hpc Hlk Hcur Hscan).
    match goal with
    | |- context [run m _ ?s1] =>
        destruct (IH s1 eq_refl Hlk Hcur)
          as [s' [Hrun [Hpc' [Hlk' [Hcur' [Hd [Hsy [Hex Hbr]]]]]]]]
    end.
    exists s'. rewrite Hrun. repeat split; try assumption.
    + rewrite Hex. cbn [trace set_loop emit]. rewrite !execs_app.
      cbn [repeat List.concat]. rewrite <- !app_assoc. f_equal.
      destruct d; [rewrite execs_ConfigureAddress
                  | rewrite execs_DeconfigureAddress]; reflexivity.
    + rewrite Hbr. cbn [trace set_loop emit]. rewrite !filter_app.
      cbn [filter is_broadcast app].
      rewrite (filter_os_events is_broadcast
                 (if d then snd (ConfigureAddress m err)
                  else snd (DeconfigureAddress m err))).
      * now rewrite !app_nil_r.
      * intros e He. destruct e; try discriminate; reflexivity.
      * destruct d; [apply os_events_ConfigureAddress
                    | apply os_events_DeconfigureAddress].
Qed.

(** X6: while the address is not as desired, applyLoop acts again at
    once: from its query, with the lock free, any number of passes in a
    row each run [ip addr show] and then [ip addr add] (or [delete]
    when the address is present and not desired), whatever the command
    returns; no broadcast is needed in between, applyLoop never parks
    and never looks at the cancellation, which may have happened. *)
Theorem wrong_state_is_retried_without_waiting
  (m : IPConfiguration) (n : nat) (s : State)
  (lines : list string) (waitErr err : option error)
  (Hpc : loop s = AQuery) (Hlock : stateLock s = None)
  (Hscan : scan lines ("inet " ++ GetCIDR m) false = negb (currentState s)) :
  exists s',
    run m (acting_passes n lines waitErr err) s = Some s' /\
    loop s' = AQuery /\
    currentState s' = currentState s /\ done s' = done s /\
    execs (trace s') =
      execs (trace s) ++
      List.concat (repeat [Exec "ip" ["addr"; "show"; iface m];
                      Exec "ip" ["addr";
                                 if currentState s then "add" else "delete";
                                 GetCIDR m; "dev"; iface m]] n) /\
    filter is_broadcast (trace s') = filter is_broadcast (trace s).
Proof.
  destruct (acting_passes_run m n s (currentState s) lines waitErr err
              Hpc Hlock eq_refl Hscan)
    as [s' [Hrun [Hpc' [_ [Hcur [Hd [_ [Hex Hbr]]]]]]]].
  exists s'. repeat split; assumption.
Qed.

(** Cancelled while true is desired and the interface is gone: three
    passes, three [ip addr add], no way out. *)
Lemma wrong_state_is_retried_without_waiting_witness :
  exists s',
    run eth0 (acting_passes 3 [] None (Some (ExitError (SysWaitStatus 256))))
      state_wanted = Some s' /\
    loop s' = AQuery /\ done s' = true /\
    List.length (execs (trace s')) = 6.
Proof.
  destruct (wrong_state_is_retried_without_waiting eth0 3
              state_wanted [] None
              (Some (ExitError (SysWaitStatus 256)))
              eq_refl eq_refl eq_refl)
    as [s' [Hrun [Hpc [_ [Hd [Hex _]]]]]].
  exists s'. split; [exact Hrun|]. split; [exact Hpc|]. split; [exact Hd|].
  rewrite Hex. reflexivity.
Defined.

(** X7: at the start the desired state is false (NewIPManager), so when
    the first query finds the address on the interface, the first pass
    of applyLoop removes it, before any leadership value has arrived. *)
Theorem leftover_address_is_removed_at_start
  (m : IPConfiguration) (lines : list string) (waitErr err : option error)
  (Hpresent : scan lines ("inet " ++ GetCIDR m) false = true) :
  exists s,
    run m (acting_pass lines waitErr err) init = Some s /\
    loop s = AQuery /\ applied s = [] /\
    trace s =
      [Exec "ip" ["addr"; "show"; iface m];
       Printf "IP address %s state is %t, desired %t"
         [AString (GetCIDR m); ABool true; ABool false]]
      ++ snd (DeconfigureAddress m err) /\
    execs (trace s) =
      [Exec "ip" ["addr"; "show"; iface m];
       Exec "ip" ["addr"; "delete"; GetCIDR m; "dev"; iface m]].
Proof.
  rewrite (acting_pass_runs m init false lines waitErr err
             eq_refl eq_refl eq_refl Hpresent).
  eexists. split; [reflexivity|]. repeat split.
  cbn [trace set_loop emit init app]. 
  change (execs (?a :: ?b :: ?t)) with (a :: execs t).
  now rewrite execs_DeconfigureAddress.
Qed.

Lemma leftover_address_is_removed_at_start_witness :
  exists s,
    run eth0 (acting_pass ["    inet 10.0.0.1/2 scope global eth0"] None None)
      init = Some s /\
    execs (trace s) =
      [Exec "ip" ["addr"; "show"; "eth0"];
       Exec "ip" ["addr"; "delete"; "10.0.0.1/2"; "dev"; "eth0"]].
Proof.
  destruct (leftover_address_is_removed_at_start eth0
              ["    inet 10.0.0.1/2 scope global eth0"] None None eq_refl)
    as [s [Hrun [_ [_ [_ Hex]]]]].
  exists s. split; [exact Hrun | exact Hex].
Defined.

(** ** Parked *)

(** X8: while applyLoop is parked in [Wait], whatever step is taken
    either leaves it parked, with no command run, or is a broadcast of
    SyncStates, which makes it runnable: applyLoop does not poll. *)
Theorem parked_until_a_broadcast
  (m : IPConfiguration) (s s' : State) (l : Label)
  (Hpark : loop s = AWait) (Hstep : step m s l = Some s') :
  (loop s' = AWait /\ execs (trace s') = execs (trace s) /\
   filter is_broadcast (trace s') = filter is_broadcast (trace s)) \/
  (loop s' = AWake /\ exists site, trace s' = trace s ++ [Broadcast site]).
Proof.
  step_cases Hstep; try congruence; cbn; rewrite_pcs; cbn;
    rewrite ?execs_app, ?filter_app; cbn; rewrite ?app_nil_r;
    first [left; repeat split; congruence | right; split; eauto].
Qed.

Lemma parked_until_a_broadcast_witness :
  loop state_waiting = AWait /\
  step eth0 state_waiting LTick = Some state_ticked /\
  ((loop state_ticked = AWait /\
    execs (trace state_ticked) = execs (trace state_waiting) /\
    filter is_broadcast (trace state_ticked) =
      filter is_broadcast (trace state_waiting)) \/
   (loop state_ticked = AWake /\
    exists site, trace state_ticked = trace state_waiting ++ [Broadcast site])).
Proof.
  split; [reflexivity|]. split; [reflexivity|].
  exact (parked_until_a_broadcast eth0 state_waiting state_ticked LTick
           eq_refl eq_refl).
Defined.

(** X9: a tick that finds applyLoop parked, with the context not
    cancelled, makes it query the address again: the broadcast, the
    lock taken and released, the select, then [ip addr show], whatever
    the desired state is. *)
Theorem tick_makes_parked_loop_query_again
  (m : IPConfiguration) (s : State) (a : QueryAnswer)
  (Hreach : reachable m s)
  (Hpark : loop s = AWait) (Hsel : sync s = SSelect) (Hlive : done s = false) :
  exists s',
    run m (tick_pass a) s = Some s' /\
    trace s' = trace s ++ Broadcast OnTick :: snd (QueryAddress m a) /\
    currentState s' = currentState s /\
    loop s' = match fst (QueryAddress m a) with
              | Returned actualState => ALock actualState
              | Panicked _ => APanicked
              end.
Proof.
  destruct (reachable_coherent m s Hreach) as [Hl _].
  unfold holds_lock in Hl. rewrite Hsel, Hpark in Hl.
  destruct s; cbn in Hpark, Hsel, Hlive, Hl; subst.
  cbv beta iota zeta delta
    [tick_pass run step loop_step sync_step broadcast wake set_loop
     set_stateLock emit loop stateLock currentState done wg ticker sync
     applied trace].
  destruct (QueryAddress m a) as [[actual|e] evs]; eexists;
    (split; [reflexivity|]); cbn; rewrite <- app_assoc; repeat split.
Qed.

Lemma tick_makes_parked_loop_query_again_witness :
  exists s',
    run eth0 (tick_pass (Started [] None)) state_waiting = Some s' /\
    loop s' = ALock false.
Proof.
  assert (Hr : reachable eth0 state_waiting)
    by (exists schedule_waiting; vm_compute; reflexivity).
  destruct (tick_makes_parked_loop_query_again eth0 state_waiting
              (Started [] None) Hr eq_refl eq_refl eq_refl)
    as [s' [Hrun [_ [_ Hl]]]].
  exists s'. split; [exact Hrun | exact Hl].
Defined.

(** ** A query before every add and delete *)

Lemma fresh_ConfigureAddress (m : IPConfiguration) (err : option error) :
  fold_left after_command (snd (ConfigureAddress m err)) (Some true) = Some false.
Proof. mutation_cases err. Qed.

Lemma fresh_DeconfigureAddress (m : IPConfiguration) (err : option error) :
  fold_left after_command (snd (DeconfigureAddress m err)) (Some true) = Some false.
Proof. mutation_cases err. Qed.

Lemma fresh_QueryAddress (m : IPConfiguration) (a : QueryAnswer)
  (r : Outcome bool) (evs : list Event) (st : option bool) :
  QueryAddress m a = (r, evs) -> st <> None ->
  fold_left after_command evs st <> None /\
  (forall b, r = Returned b -> fold_left after_command evs st = Some true).
Proof.
  destruct st as [f|]; [|congruence].
  destruct a; cbn; intros H _; injection H as <- <-; cbn;
    split; try discriminate; try reflexivity; intros; discriminate.
Qed.

Lemma fresh_inv_step (m : IPConfiguration) (s s' : State) (l : Label) :
  fresh_inv s -> step m s l = Some s' -> fresh_inv s'.
Proof.
  intros Hc H; revert Hc. unfold fresh_inv, queried_before_acting.
  step_cases H; cbn; rewrite_pcs; cbn; rewrite ?fold_left_app; cbn;
    try (intros Hc; exact Hc);
    try (intros ->; cbn; reflexivity);
    try (intros ->; rewrite ?fresh_DeconfigureAddress; cbn;
         first [reflexivity | discriminate]);
    try (intros Hc;
         destruct (fold_left after_command (trace s) (Some false));
         cbn; congruence);
    try match goal with
        | Hq : QueryAddress _ _ = _ |- _ =>
            intros Hc; destruct (fresh_QueryAddress _ _ _ _ _ Hq Hc) as [Hn Hr];
            first [exact Hn | exact (Hr _ eq_refl)]
        end.
  intros ->.
  destruct desiredState;
    rewrite ?fresh_ConfigureAddress, ?fresh_DeconfigureAddress; discriminate.
Qed.

(** X10: in every reachable trace each [ip addr add] and each [ip addr
    delete], the final one included, comes right after an [ip addr
    show], with no other command in between: applyLoop never acts twice
    on one reading of the actual state. *)
Theorem every_add_and_delete_follows_a_query
  (m : IPConfiguration) (s : State) (Hreach : reachable m s) :
  queried_before_acting (trace s) <> None.
Proof.
  assert (Hi : fresh_inv s).
  { revert s Hreach. apply reachable_invariant.
    - cbn. discriminate.
    - intros; eapply fresh_inv_step; eassumption. }
  unfold fresh_inv in Hi. destruct (loop s); congruence.
Qed.

Lemma every_add_and_delete_follows_a_query_witness :
  execs (trace state_added) =
    [Exec "ip" ["addr"; "show"; "eth0"];
     Exec "ip" ["addr"; "add"; "10.0.0.1/2"; "dev"; "eth0"]] /\
  queried_before_acting (trace state_added) <> None /\
  queried_before_acting
    [Exec "ip" ["addr"; "add"; "10.0.0.1/2"; "dev"; "eth0"]] = None.
Proof.
  split; [reflexivity|]. split; [|reflexivity].
  apply (every_add_and_delete_follows_a_query eth0).
  exists schedule_added. vm_compute. reflexivity.
Defined.

(** ** The verdict of runAddressConfiguration *)

(** X11: for any action, runAddressConfiguration reports success in
    two cases only: the command ended without error, or it exited (it
    was not ended by a signal) with exit code 2. A command ended by a
    signal, signal 2 included, an exit error that carries no wait
    status, and any other error are failures. One command is run in
    every case. *)
Theorem mutation_succeeds_iff
  (m : IPConfiguration) (action : string) (err : option error) :
  (fst (runAddressConfiguration m action err) = true <->
   err = None \/
   exists w, err = Some (ExitError (SysWaitStatus w)) /\
             Z.land w 127 = 0%Z /\ Z.land (Z.shiftr w 8) 255 = 2%Z) /\
  execs (snd (runAddressConfiguration m action err)) =
    [Exec "ip" ["addr"; action; GetCIDR m; "dev"; iface m]].
Proof.
  unfold runAddressConfiguration.
  destruct err as [[[w|]|msg]|]; cbn.
  - destruct (Z.eqb_spec (ExitStatus w) 2) as [E|E]; cbn;
      (split; [split|reflexivity]).
    + intros _. right. exists w. split; [reflexivity|].
      now apply ExitStatus_2_iff.
    + reflexivity.
    + discriminate.
    + intros [H | [w' [H Hw]]]; [discriminate|].
      injection H as <-. now apply ExitStatus_2_iff in Hw.
  - split; [split|reflexivity]; [discriminate|].
    intros [H | [w' [H _]]]; discriminate.
  - split; [split|reflexivity]; [discriminate|].
    intros [H | [w' [H _]]]; discriminate.
  - split; [split|reflexivity]; [|reflexivity]. intros _. now left.
Qed.

(** ** The lines QueryAddress reads *)

(** X12: what QueryAddress answers for an output is the disjunction of
    what it answers for the parts of the output: further lines never
    turn a found address into an absent one; an empty output reads as
    absent; and what [c.Wait()] returns plays no part. *)
Theorem QueryAddress_joins_lines
  (m : IPConfiguration) (l1 l2 : list string) (w1 w2 w : option error) :
  exists b1 b2,
    fst (QueryAddress m (Started l1 w1)) = Returned b1 /\
    fst (QueryAddress m (Started l2 w2)) = Returned b2 /\
    fst (QueryAddress m (Started (l1 ++ l2) w)) = Returned (b1 || b2)%bool /\
    fst (QueryAddress m (Started [] w)) = Returned false.
Proof.
  eexists. eexists. split; [reflexivity|]. split; [reflexivity|].
  split; [|reflexivity]. cbn. f_equal.
  rewrite !scan_existsb. cbn. apply existsb_app.
Qed.


End ManagerMore.

(* ===================================================================== *)
(** * Further properties of the leader checker                           *)
(* ===================================================================== *)

Module CheckerMore.
Import Checker CheckerProofs.

Lemma watcher_run_invariant (c : ConsulLeaderChecker) (P : State -> Prop) :
  (forall s l s', P s -> step c s l = Some s' -> P s') ->
  forall ls s s', P s -> run c ls s = Some s' -> P s'.
Proof.
  intros Hstep ls; induction ls as [|l ls IH]; intros s s' HP Hrun;
    simpl in Hrun.
  - now injection Hrun as <-.
  - destruct (step c s l) as [s1|] eqn:Hs; [|discriminate].
    eapply IH; [|exact Hrun]. eapply Hstep; eassumption.
Qed.

(** Every way a step of the checker can succeed. *)
Ltac watcher_cases H :=
  unfold step in H;
  match type of H with
  | context [match ?l with LCancel _ => _ | _ => _ end] => destruct l as [?e|?a| |]
  end;
  match type of H with
  | context [pc ?s] => let E := fresh "Hpc" in destruct (pc s) eqn:E
  end;
  try discriminate H;
  try match type of H with
      | context [match ?a with GetError _ => _ | _ => _ end] => destruct a
      end;
  try match type of H with
      | context [ctxErr ?s] =>
          let E := fresh "Hctx" in destruct (ctxErr s) eqn:E
      end;
  try discriminate H;
  injection H as H; subst.

(** ** The last-seen index *)

(** X13: after any run, [WaitIndex] is the [ModifyIndex] of the last
    read that returned a pair, whatever that index is (smaller than the
    one before, or zero), and the initial one when no read returned a
    pair; failed reads, sends and the cancellation leave it alone. *)
Theorem WaitIndex_is_last_ModifyIndex
  (c : ConsulLeaderChecker) (ls : list Label) (s s' : State)
  (Hrun : run c ls s = Some s') :
  WaitIndex s' = last_index ls (WaitIndex s).
Proof.
  revert s Hrun; induction ls as [|l ls IH]; intros s Hrun; simpl in Hrun.
  - now injection Hrun as <-.
  - destruct (step c s l) as [s1|] eqn:Hs; [|discriminate].
    rewrite (IH s1 Hrun). clear IH Hrun.
    watcher_cases Hs; reflexivity.
Qed.

Lemma WaitIndex_is_last_ModifyIndex_witness :
  run node1 schedule_reads init = Some state_reads /\
  WaitIndex state_reads = 3%Z.
Proof.
  assert (Hrun : run node1 schedule_reads init = Some state_reads)
    by (vm_compute; reflexivity).
  split; [exact Hrun|].
  exact (WaitIndex_is_last_ModifyIndex node1 schedule_reads init state_reads Hrun).
Defined.

(** ** Sleeps *)

Lemma sleeps_step (c : ConsulLeaderChecker) (s s' : State) (l : Label) :
  sleeps (trace s) = repeat (1 * Second)%Z (printed (trace s)) ->
  step c s l = Some s' ->
  sleeps (trace s') = repeat (1 * Second)%Z (printed (trace s')).
Proof.
  intros Hi H. watcher_cases H; cbn [trace];
    rewrite ?sleeps_app, ?printed_app; cbn [sleeps printed app];
    rewrite ?app_nil_r, ?Nat.add_0_r; try exact Hi.
  all: rewrite Hi; now rewrite repeat_app.
Qed.

(** X14: in every run from the start each sleep lasts one second and
    follows one printed line: the sleeps are as many as the lines
    printed, and none is longer than the one before it. *)
Theorem every_sleep_is_one_second
  (c : ConsulLeaderChecker) (ls : list Label) (s : State)
  (Hrun : run c ls init = Some s) :
  sleeps (trace s) = repeat 1000000000%Z (printed (trace s)).
Proof.
  apply (watcher_run_invariant c
           (fun s => sleeps (trace s) = repeat (1 * Second)%Z (printed (trace s)))
           (fun a l b => sleeps_step c a b l) ls init s);
    [reflexivity | exact Hrun].
Qed.

Lemma every_sleep_is_one_second_witness :
  run node1 schedule_cancelled init = Some state_cancelled /\
  sleeps (trace state_cancelled) = [1000000000; 1000000000]%Z.
Proof.
  assert (Hrun : run node1 schedule_cancelled init = Some state_cancelled)
    by (vm_compute; reflexivity).
  split; [exact Hrun|].
  exact (every_sleep_is_one_second node1 schedule_cancelled state_cancelled Hrun).
Defined.

(** ** The stream and the reads *)

Lemma run_from_returned (c : ConsulLeaderChecker) (ls : list Label)
  (s s' : State) (r : option CtxError) :
  pc s = PReturned r -> ctxErr s <> None -> run c ls s = Some s' ->
  ls = [] /\ s' = s.
Proof.
  intros Hpc Hctx Hrun. destruct ls as [|l ls]; simpl in Hrun.
  - injection Hrun as <-. now split.
  - exfalso. destruct (step c s l) as [s1|] eqn:Hs; [|discriminate].
    watcher_cases Hs; congruence.
Qed.

Lemma pairs_cons (l : Label) (ls : list Label) :
  pairs (l :: ls) =
  match l with
  | LGet (GetPair v _) => v :: pairs ls
  | _ => pairs ls
  end.
Proof. destruct l as [e|[err| |v i]| |]; reflexivity. Qed.

Lemma sent_follows_pairs (c : ConsulLeaderChecker) (ls : list Label)
  (s0 s : State) :
  run c ls s0 = Some s ->
  exists emitted rest,
    sent (trace s) = sent (trace s0) ++ emitted /\
    pending (pc s0) ++ map (fun v => String.eqb v (nodename c)) (pairs ls)
      = emitted ++ rest /\
    match pc s with
    | PReturned _ => (List.length rest <= 1)%nat
    | p => rest = pending p
    end.
Proof.
  revert s0; induction ls as [|l ls IH]; intros s0 Hrun; simpl in Hrun.
  - injection Hrun as <-. exists [], (pending (pc s0)).
    rewrite !app_nil_r. repeat split.
    destruct (pc s0); cbn; auto.
  - destruct (step c s0 l) as [s1|] eqn:Hs; [|discriminate].
    pose proof (IH s1 Hrun) as [em [rest [Hsent [Heq Hrest]]]].
    rewrite pairs_cons.
    watcher_cases Hs; cbn [pc trace pending app map] in *;
      rewrite ?Hpc; cbn [pending app];
      rewrite ?sent_app in Hsent; cbn [sent app] in Hsent;
      rewrite ?app_nil_r in Hsent.
    all: try (exists em, rest; repeat split; assumption).
    (* the send *)
    all: try (exists (state :: em), rest;
              split; [now rewrite Hsent, <- app_assoc|];
              split; [cbn; now rewrite Heq | exact Hrest]).
    (* the select takes the cancellation *)
    match type of Hrun with
    | run _ _ ?s1 = _ =>
        destruct (run_from_returned c ls s1 s _ eq_refl
                    ltac:(cbn; congruence) Hrun) as [-> ->]
    end.
    exists [], [state]. cbn [pc trace]. rewrite sent_app. cbn.
    rewrite !app_nil_r. repeat split. lia.
Qed.

(** X15: in every run from the start the booleans sent are, in order,
    the comparisons of the values read with the node identifier; none
    is sent twice or without its read, and at most the last read is
    not sent: the one that waits at the select, or the one dropped when
    the select took the cancellation. *)
Theorem every_sent_boolean_has_its_read
  (c : ConsulLeaderChecker) (ls : list Label) (s : State)
  (Hrun : run c ls init = Some s) :
  exists rest,
    map (fun v => String.eqb v (nodename c)) (pairs ls) = sent (trace s) ++ rest /\
    (List.length rest <= 1)%nat /\
    (pc s = PGet -> rest = []) /\
    (forall b, pc s = PSelect b -> rest = [b]).
Proof.
  destruct (sent_follows_pairs c ls init s Hrun)
    as [em [rest [Hsent [Heq Hrest]]]].
  cbn in Hsent, Heq. exists rest. rewrite Hsent, Heq.
  split; [reflexivity|].
  destruct (pc s); cbn in Hrest; subst; cbn;
    repeat split; try congruence; try lia.
Qed.

Lemma every_sent_boolean_has_its_read_witness :
  run node1 schedule_reads init = Some state_reads /\
  exists rest,
    map (fun v => String.eqb v "node1") (pairs schedule_reads)
    = sent (trace state_reads) ++ rest /\
    rest = [false].
Proof.
  assert (Hrun : run node1 schedule_reads init = Some state_reads)
    by (vm_compute; reflexivity).
  split; [exact Hrun|].
  destruct (every_sent_boolean_has_its_read node1 schedule_reads state_reads Hrun)
    as [rest [Heq [_ [_ Hsel]]]].
  exists rest. split; [exact Heq | exact (Hsel false eq_refl)].
Defined.

End CheckerMore.
